(** * Site publication and naming engine (server.js): a shallow embedding

    The development follows the Express server of the repository: the
    helpers [generateSiteUrls], [generateSubdomain], [validateUsername] and
    [validateSubdomain], and the two handlers that change the user store,
    [POST /api/register] and [POST /api/upload].

    Modelling conventions.
    - JavaScript strings are [string]s of 8-bit characters (ASCII text);
      [toLowerCase] maps [A-Z] to [a-z] and leaves every other character.
    - An optional request field is an [option string]; a field is truthy
      when it is present and not the empty string.
    - JavaScript objects used as maps ([urls], the parsed [users.json]) are
      [gmap]s of their own properties; the keys are domain names and user
      ids.  A read [o[key]] is [Js.get]: it finds an own property first and
      then what every plain object inherits from [Object.prototype].
    - The outcomes of file-system calls and the values drawn from
      [crypto.randomUUID], [Date] and [Math.random] come from an explicit
      environment record, one per handler call.
    - The [while] loop of the upload handler runs on fuel; the fuel the
      handler gives it is proved to be enough ([uniqueSlug_first_free],
      [upload_total]). *)

From Stdlib Require Import Ascii.
From stdpp Require Import base strings list gmap pretty.
From Equations Require Import Equations.

(** ** JavaScript string primitives *)

Module Js.

(** Truthiness of an optional string field: [undefined] and [""] are falsy. *)
Definition truthy (v : option string) : bool :=
  match v with
  | Some s => negb (String.eqb s "")
  | None => false
  end.

(** [v || d] on an optional string field. *)
Definition or_else (v : option string) (d : string) : string :=
  match v with
  | Some s => if String.eqb s "" then d else s
  | None => d
  end.

Definition between (lo hi c : ascii) : bool :=
  (N_of_ascii lo <=? N_of_ascii c)%N && (N_of_ascii c <=? N_of_ascii hi)%N.

Definition is_lower (c : ascii) : bool := between "a" "z" c.
Definition is_upper (c : ascii) : bool := between "A" "Z" c.
Definition is_digit (c : ascii) : bool := between "0" "9" c.

Definition lower_char (c : ascii) : ascii :=
  if is_upper c then ascii_of_N (N_of_ascii c + 32) else c.

(** [s.toLowerCase()] *)
Fixpoint toLowerCase (s : string) : string :=
  match s with
  | "" => ""
  | String c r => String (lower_char c) (toLowerCase r)
  end.

(** [/^[cls]+$/.test(s)] for a character class [cls]: one character at
    least, all of them in the class. *)
Fixpoint all_chars (cls : ascii → bool) (s : string) : bool :=
  match s with
  | "" => true
  | String c r => cls c && all_chars cls r
  end.

Definition test_plus (cls : ascii → bool) (s : string) : bool :=
  match s with
  | "" => false
  | _ => all_chars cls s
  end.

(** [s.startsWith(p)] *)
Fixpoint startsWith (s p : string) {struct p} : bool :=
  match p, s with
  | "", _ => true
  | String a p', String b s' => Ascii.eqb a b && startsWith s' p'
  | String _ _, "" => false
  end.

(** [s.endsWith(p)] *)
Definition endsWith (s p : string) : bool :=
  startsWith (String.rev s) (String.rev p).

(** The rest of [s] after the prefix [p], when [p] is a prefix of [s]. *)
Fixpoint after_prefix (p s : string) : option string :=
  match p, s with
  | "", _ => Some s
  | String a p', String b s' =>
      if Ascii.eqb a b then after_prefix p' s' else None
  | String _ _, "" => None
  end.

(** The first occurrence of [pat] in [s]: the text before it and the text
    after it. *)
Fixpoint find_first (pat s : string) : option (string * string) :=
  match after_prefix pat s with
  | Some rest => Some ("", rest)
  | None =>
      match s with
      | "" => None
      | String c s' =>
          match find_first pat s' with
          | Some (before, rest) => Some (String c before, rest)
          | None => None
          end
      end
  end.

(** GetSubstitution for a string pattern (no capture groups): in the
    replacement text, [$$] is a dollar sign, [$&] the matched text,
    [$`] the text before the match and [$'] the text after it; every
    other character, a lone [$] and [$1], [$<] included, stands for
    itself. *)
Fixpoint getSubstitution (matched before rest templ : string) : string :=
  match templ with
  | "" => ""
  | String c r =>
      if Ascii.eqb c "$" then
        match r with
        | String d r' =>
            if Ascii.eqb d "$" then
              String "$" (getSubstitution matched before rest r')
            else if Ascii.eqb d "&" then
              matched +:+ getSubstitution matched before rest r'
            else if Ascii.eqb d "`" then
              before +:+ getSubstitution matched before rest r'
            else if Ascii.eqb d "'" then
              rest +:+ getSubstitution matched before rest r'
            else String c (getSubstitution matched before rest r)
        | "" => String c ""
        end
      else String c (getSubstitution matched before rest r)
  end.

(** [s.replace(pat, templ)] with a string pattern: the first occurrence
    only, the replacement text expanded by [getSubstitution]; [s] itself
    when [pat] does not occur. *)
Definition replace (s pat templ : string) : string :=
  match find_first pat s with
  | Some (before, rest) =>
      before +:+ getSubstitution pat before rest templ +:+ rest
  | None => s
  end.

(** [s.replace(/[^a-z0-9]+/g, '-')]: scanning from the left, each longest
    run of characters outside [a-z0-9] becomes one hyphen.  [inrun] says
    that the previous character belonged to the run being replaced. *)
Definition slug_char (c : ascii) : bool := is_lower c || is_digit c.

Fixpoint replace_runs (inrun : bool) (s : string) : string :=
  match s with
  | "" => ""
  | String c r =>
      if slug_char c then String c (replace_runs false r)
      else if inrun then replace_runs true r
      else String "-" (replace_runs true r)
  end.

(** Removes a final hyphen: the alternative [-$]. *)
Fixpoint drop_final_hyphen (s : string) : string :=
  match s with
  | "" => ""
  | String c "" => if Ascii.eqb c "-" then "" else s
  | String c r => String c (drop_final_hyphen r)
  end.

(** [s.replace(/^-|-$/g, '')]: a hyphen at index 0 is removed, and so is a
    hyphen that is the last character. *)
Definition strip_edge_hyphens (s : string) : string :=
  match s with
  | String c r => if Ascii.eqb c "-" then drop_final_hyphen r
                  else drop_final_hyphen s
  | "" => ""
  end.

(** *** Property reads on plain objects *)

(** The properties of [Object.prototype]: the built-in functions and the
    accessor [__proto__]. *)
Definition object_prototype_keys : list string :=
  ["constructor"; "__defineGetter__"; "__defineSetter__"; "hasOwnProperty";
   "__lookupGetter__"; "__lookupSetter__"; "isPrototypeOf";
   "propertyIsEnumerable"; "toString"; "valueOf"; "__proto__";
   "toLocaleString"].

(** What [o[key]] evaluates to on a plain object [o]: the value of an own
    property; or, for a key that [o] does not have and [Object.prototype]
    has, the inherited value (a built-in function, or [Object.prototype]
    itself for [__proto__]); or [undefined]. *)
Inductive Value (A : Type) :=
  | Own (a : A)
  | Inherited (key : string)
  | Undefined.

Arguments Own {A} a.
Arguments Inherited {A} key.
Arguments Undefined {A}.

Definition inherits (key : string) : bool :=
  existsb (String.eqb key) object_prototype_keys.

(** [o[key]] *)
Definition get {A : Type} (o : gmap string A) (key : string) : Value A :=
  match o !! key with
  | Some a => Own a
  | None => if inherits key then Inherited key else Undefined
  end.

(** Truthiness of a value read from an object of strings: a function and
    an object are truthy, a string unless it is empty. *)
Definition truthy_value (v : Value string) : bool :=
  match v with
  | Own s => negb (String.eqb s "")
  | Inherited _ => true
  | Undefined => false
  end.

(** [a || b] *)
Definition or_value (a b : Value string) : Value string :=
  if truthy_value a then a else b.

End Js.

(** ** Data model *)

(** A site record, as the upload handler pushes it on [user.sites]. *)
Record Site := {
  site_id : string;
  site_name : string;
  site_slug : string;
  site_domain : string;
  site_urls : gmap string string;
  site_createdAt : string;
  site_updatedAt : string;
  site_visits : nat;
  site_published : bool
}.

(** A user record, as the registration handler stores it in [users.json]. *)
Record User := {
  user_id : string;
  user_username : string;
  user_email : string;
  user_password : string;
  user_createdAt : string;
  user_subdomain : string;
  user_sites : list Site
}.

(** What the handlers read and write: [users.json] parsed (user id to user
    record), and the directories and files under [USERS_DIR], each named by
    its path segments below that directory. *)
Record Disk := {
  USERS_FILE : gmap string User;
  dirs : gset (list string);
  files : gmap (list string) string
}.

(** [ensureDirectories] writes [{}] to a missing [users.json]. *)
Definition initial_disk : Disk :=
  {| USERS_FILE := ∅; dirs := ∅; files := ∅ |}.

(** The non-empty prefixes of a path: the directory and its ancestors. *)
Fixpoint ancestors (p : list string) : list (list string) :=
  match p with
  | [] => []
  | x :: r => [x] :: map (cons x) (ancestors r)
  end.

(** [fs.mkdir(p, { recursive: true })] *)
Definition mkdir (p : list string) (d : Disk) : Disk :=
  {| USERS_FILE := USERS_FILE d;
     dirs := dirs d ∪ list_to_set (ancestors p);
     files := files d |}.

(** [fs.writeFile(p, content)] below [USERS_DIR]. *)
Definition writeFile (p : list string) (content : string) (d : Disk) : Disk :=
  {| USERS_FILE := USERS_FILE d;
     dirs := dirs d;
     files := <[p := content]> (files d) |}.

(** [fs.writeFile(USERS_FILE, JSON.stringify(users, null, 2))] *)
Definition writeUsers (users : gmap string User) (d : Disk) : Disk :=
  {| USERS_FILE := users; dirs := dirs d; files := files d |}.

(** ** Validation *)

Definition username_char (c : ascii) : bool :=
  Js.is_lower c || Js.is_upper c || Js.is_digit c
  || Ascii.eqb c "_" || Ascii.eqb c "-".

Definition subdomain_char (c : ascii) : bool :=
  Js.is_lower c || Js.is_upper c || Js.is_digit c || Ascii.eqb c "-".

Definition reserved : list string :=
  ["www"; "api"; "admin"; "dashboard"; "mail"; "ftp"; "cdn"; "static";
   "assets"; "hosted"; "users"].

(** [reserved.includes(x)] *)
Definition includes (l : list string) (x : string) : bool :=
  existsb (String.eqb x) l.

Definition validateUsername (username : string) : bool :=
  if negb (Js.test_plus username_char username) then false
  else if (String.length username <? 3) || (30 <? String.length username)
  then false
  else if Js.startsWith username "-" || Js.endsWith username "-"
          || Js.startsWith username "_" || Js.endsWith username "_"
  then false
  else if includes reserved (Js.toLowerCase username) then false
  else true.

Definition validateSubdomain (subdomain : string) : bool :=
  if negb (Js.test_plus subdomain_char subdomain) then false
  else if (String.length subdomain <? 3) || (63 <? String.length subdomain)
  then false
  else if Js.startsWith subdomain "-" || Js.endsWith subdomain "-" then false
  else true.

(** ** Subdomain generation *)

Definition adjectives : list string :=
  ["quick"; "bright"; "clever"; "swift"; "smart"; "happy"; "lucky"; "sunny";
   "cool"; "warm"].

Definition nouns : list string :=
  ["site"; "web"; "page"; "space"; "zone"; "hub"; "spot"; "place"; "world";
   "realm"].

(** The three values [generateSubdomain] takes from [Math.random], each
    already floored: [Math.floor(Math.random() * 9999)] and the two indices
    [Math.floor(Math.random() * 10)]. *)
Record Draw := {
  rnd_number : nat;
  rnd_adjective : nat;
  rnd_noun : nat
}.

(** [words[i]] inside a template literal: an index out of range reads
    [undefined]. *)
Definition word_at (words : list string) (i : nat) : string :=
  nth i words "undefined".

Definition generateSubdomain (r : Draw) (username : string) : string :=
  let numbers := rnd_number r + 1 in
  let adjective := word_at adjectives (rnd_adjective r) in
  let noun := word_at nouns (rnd_noun r) in
  username +:+ "-" +:+ adjective +:+ noun +:+ pretty numbers.

(** ** Slug derivation and uniqueness *)

(** [siteName.toLowerCase().replace(/[^a-z0-9]+/g, '-')
            .replace(/^-|-$/g, '') || 'site'] *)
Definition slugFromName (siteName : string) : string :=
  let s := Js.strip_edge_hyphens
             (Js.replace_runs false (Js.toLowerCase siteName)) in
  if String.eqb s "" then "site" else s.

(** [let slug = siteSlug; if (!slug) { slug = ... }]: [None] is the
    TypeError of [siteName.toLowerCase()] on an absent [siteName]. *)
Definition candidateSlug (siteSlug siteName : option string) : option string :=
  if Js.truthy siteSlug then siteSlug
  else match siteName with
       | Some n => Some (slugFromName n)
       | None => None
       end.

(** [user.sites.some(site => site.slug === finalSlug)] *)
Definition slugTaken (sites : list Site) (finalSlug : string) : bool :=
  existsb (λ site, String.eqb (site_slug site) finalSlug) sites.

(** The [while] loop of the upload handler, [fuel] iterations at most.
    The counter is a natural number, printed in decimal as the template
    literal prints a JavaScript number of that size. *)
Fixpoint uniqueSlug_loop (fuel : nat) (slug : string) (sites : list Site)
    (finalSlug : string) (counter : nat) : option string :=
  match fuel with
  | 0 => None
  | S fuel' =>
      if slugTaken sites finalSlug
      then uniqueSlug_loop fuel' slug sites
             (slug +:+ "-" +:+ pretty counter) (S counter)
      else Some finalSlug
  end.

(** [let finalSlug = slug; let counter = 1; while (...) { ... }] *)
Definition uniqueSlug (slug : string) (sites : list Site) : option string :=
  uniqueSlug_loop (S (length sites)) slug sites slug 1.

(** ** Asset weaving *)

Definition dquote : string := String "034" "".
Definition newline : string := String "010" "".

Definition faviconTemplate (favicon : string) : string :=
  "<head>" +:+ newline +:+ "    <link rel=" +:+ dquote +:+ "icon" +:+ dquote
  +:+ " href=" +:+ dquote +:+ "data:image/x-icon;base64," +:+ favicon
  +:+ dquote +:+ ">".

Definition cssTemplate (css : string) : string :=
  "<style>" +:+ css +:+ "</style></head>".

Definition jsTemplate (js : string) : string :=
  "<script>" +:+ js +:+ "</script></body>".

(** [if (asset) { fullHtml = fullHtml.replace(marker, template) }] *)
Definition weaveOne (asset : option string) (marker : string)
    (template : string → string) (fullHtml : string) : string :=
  match asset with
  | Some a => if String.eqb a "" then fullHtml
              else Js.replace fullHtml marker (template a)
  | None => fullHtml
  end.

Definition weave (html : string) (favicon css js : option string) : string :=
  let fullHtml := html in
  let fullHtml := weaveOne favicon "<head>" faviconTemplate fullHtml in
  let fullHtml := weaveOne css "</head>" cssTemplate fullHtml in
  let fullHtml := weaveOne js "</body>" jsTemplate fullHtml in
  fullHtml.

(** ** Requests, environments and responses *)

(** The body of [POST /api/register]. *)
Record RegisterBody := {
  username : option string;
  email : option string;
  password : option string
}.

(** What one registration takes from outside the handler: whether
    [users.json] could be read and parsed, the bcrypt hash, the UUID, the
    clock, the random draw, whether the two file-system writes succeed, and
    the signed token. *)
Record RegisterEnv := {
  reg_read_ok : bool;
  reg_hashedPassword : string;
  reg_userId : string;
  reg_now : string;
  reg_draw : Draw;
  reg_write_ok : bool;
  reg_mkdir_ok : bool;
  reg_token : string
}.

Inductive RegisterError :=
  | FieldsRequired       (* 400 All fields are required *)
  | InvalidUsername      (* 400 Invalid username. ... *)
  | PasswordTooShort     (* 400 Password must be at least 6 characters long *)
  | UsernameTaken        (* 400 Username already taken *)
  | EmailRegistered      (* 400 Email already registered *)
  | RegistrationFailed.  (* 500 Registration failed *)

Inductive RegisterResponse :=
  | RegisterRejected (e : RegisterError)
  | Registered (token : string) (user : User).

(** The body of [POST /api/upload]. *)
Record UploadBody := {
  html : option string;
  css : option string;
  js : option string;
  siteName : option string;
  siteSlug : option string;
  favicon : option string;
  preferredDomain : option string
}.

(** What one upload takes from outside the handler. *)
Record UploadEnv := {
  up_read_ok : bool;
  up_mkdir_ok : bool;
  up_write_page_ok : bool;
  up_siteId : string;
  up_createdAt : string;
  up_updatedAt : string;
  up_write_users_ok : bool
}.

Inductive UploadError :=
  | MissingContent     (* 400 HTML content is required *)
  | UserDataNotFound   (* 500 User data not found *)
  | UserNotFound       (* 404 User not found *)
  | InvalidSlug        (* 400 Invalid site name. ... *)
  | UploadFailed.      (* 500 Failed to upload site: the catch block *)

(** The object the handler hands to [res.json] on success; [url] and
    [primaryUrl] are reads of [urls], [undefined] for a key that neither
    [urls] nor [Object.prototype] has. *)
Record UploadOk := {
  ok_slug : string;
  ok_url : Js.Value string;
  ok_urls : gmap string string;
  ok_domain : string;
  ok_primaryUrl : Js.Value string;
  ok_site : Site
}.

Inductive UploadResponse :=
  | UploadRejected (e : UploadError)
  | Published (r : UploadOk).

(** ** The handlers *)

(** [Object.values(users).some(p)] *)
Definition someUser (p : User → bool) (users : gmap string User) : bool :=
  existsb p (snd <$> map_to_list users).

(** [POST /api/register] *)
Definition register (env : RegisterEnv) (body : RegisterBody) (d : Disk)
    : RegisterResponse * Disk :=
  match username body, email body, password body with
  | Some username, Some email, Some password =>
      if String.eqb username "" || String.eqb email ""
         || String.eqb password ""
      then (RegisterRejected FieldsRequired, d)
      else if negb (validateUsername username)
      then (RegisterRejected InvalidUsername, d)
      else if String.length password <? 6
      then (RegisterRejected PasswordTooShort, d)
      else
        let users := if reg_read_ok env then USERS_FILE d else ∅ in
        if someUser (λ user, String.eqb (user_username user) username) users
        then (RegisterRejected UsernameTaken, d)
        else if someUser (λ user, String.eqb (user_email user) email) users
        then (RegisterRejected EmailRegistered, d)
        else
          let userId := reg_userId env in
          let user :=
            {| user_id := userId;
               user_username := username;
               user_email := email;
               user_password := reg_hashedPassword env;
               user_createdAt := reg_now env;
               user_subdomain := generateSubdomain (reg_draw env) username;
               user_sites := [] |} in
          let users := <[userId := user]> users in
          if negb (reg_write_ok env)
          then (RegisterRejected RegistrationFailed, d)
          else
            let d := writeUsers users d in
            if negb (reg_mkdir_ok env)
            then (RegisterRejected RegistrationFailed, d)
            else (Registered (reg_token env) user,
                  mkdir [user_subdomain user] d)
  | _, _, _ => (RegisterRejected FieldsRequired, d)
  end.

(** ** Listing and authentication *)

(** One entry of the answer of [GET /api/user/sites]: the site record
    spread, with [url] and [primaryUrl] added, each a read of the [urls] of
    the site. *)
Record SiteView := {
  view_site : Site;
  view_url : Js.Value string;
  view_primaryUrl : Js.Value string
}.

(** [s.split(' ')], for any separator character: the pieces between the
    separators, empty pieces included; one empty piece for the empty
    string. *)
Fixpoint split (sep : ascii) (s : string) : list string :=
  match s with
  | "" => [""]
  | String c r =>
      if Ascii.eqb c sep then "" :: split sep r
      else match split sep r with
           | piece :: pieces => String c piece :: pieces
           | [] => [String c ""]
           end
  end.

(** The payload of a token: [{ userId, username }]. *)
Record Identity := {
  token_userId : string;
  token_username : string
}.

Inductive AuthOutcome :=
  | AccessTokenRequired              (* 401 Access token required *)
  | InvalidToken                     (* 403 Invalid or expired token *)
  | Next (user : Identity).          (* req.user = user; next() *)

Section Authentication.

(** [jwt.verify(token, JWT_SECRET, ...)]: the payload of a token that
    verifies, [None] when the callback gets an error. *)
Variable jwt_verify : string → option Identity.

(** [authHeader && authHeader.split(' ')[1]] *)
Definition bearerToken (authHeader : option string) : option string :=
  match authHeader with
  | Some h => if String.eqb h "" then Some "" else split " " h !! 1
  | None => None
  end.

(** The middleware [authenticateToken], on the [authorization] header. *)
Definition authenticateToken (authHeader : option string) : AuthOutcome :=
  let token := bearerToken authHeader in
  if negb (Js.truthy token) then AccessTokenRequired
  else match jwt_verify (default "" token) with
       | None => InvalidToken
       | Some user => Next user
       end.

End Authentication.

Section Server.

(** The multi-domain configuration, fixed when the process starts. *)
Variable SUPPORTED_DOMAINS : list string.
Variable PRIMARY_DOMAIN : string.

Definition siteUrl (userSubdomain siteSlug domain : string) : string :=
  "https://" +:+ userSubdomain +:+ "-" +:+ siteSlug +:+ "." +:+ domain.

(** [SUPPORTED_DOMAINS.forEach(domain => { urls[domain] = ... })] *)
Definition generateSiteUrls (userSubdomain siteSlug : string)
    : gmap string string :=
  foldl (λ urls domain,
           <[domain := siteUrl userSubdomain siteSlug domain]> urls)
        ∅ SUPPORTED_DOMAINS.

(** [POST /api/upload] for the authenticated user [userId].  [None] only
    if the slug loop runs out of fuel, which [upload_total] excludes.

    [users[req.user.userId]] is a read of the parsed [users.json]: for an
    id that is no key of it and names a property of [Object.prototype] the
    handler gets a truthy value that is no user record, goes on to the slug
    checks, and [user.sites.some] then throws, into the catch block. *)
Definition upload (env : UploadEnv) (userId : string) (body : UploadBody)
    (d : Disk) : option (UploadResponse * Disk) :=
  match html body with
  | None => Some (UploadRejected MissingContent, d)
  | Some html =>
  if String.eqb html "" then Some (UploadRejected MissingContent, d)
  else if negb (up_read_ok env)
  then Some (UploadRejected UserDataNotFound, d)
  else
  let users := USERS_FILE d in
  match Js.get users userId with
  | Js.Undefined => Some (UploadRejected UserNotFound, d)
  | found =>
  match candidateSlug (siteSlug body) (siteName body) with
  | None => Some (UploadRejected UploadFailed, d)
  | Some slug =>
  if negb (validateSubdomain slug)
  then Some (UploadRejected InvalidSlug, d)
  else
  match found with
  | Js.Undefined | Js.Inherited _ => Some (UploadRejected UploadFailed, d)
  | Js.Own user =>
  match uniqueSlug slug (user_sites user) with
  | None => None
  | Some finalSlug =>
  let userSubdomain := user_subdomain user in
  let siteDir := [userSubdomain; finalSlug] in
  if negb (up_mkdir_ok env) then Some (UploadRejected UploadFailed, d)
  else
  let d := mkdir siteDir d in
  let fullHtml := weave html (favicon body) (css body) (js body) in
  if negb (up_write_page_ok env) then Some (UploadRejected UploadFailed, d)
  else
  let d := writeFile (siteDir ++ ["index.html"]) fullHtml d in
  let urls := generateSiteUrls userSubdomain finalSlug in
  let selectedDomain := Js.or_else (preferredDomain body) PRIMARY_DOMAIN in
  let site :=
    {| site_id := up_siteId env;
       site_name := Js.or_else (siteName body) "Untitled Site";
       site_slug := finalSlug;
       site_domain := selectedDomain;
       site_urls := urls;
       site_createdAt := up_createdAt env;
       site_updatedAt := up_updatedAt env;
       site_visits := 0;
       site_published := true |} in
  let user :=
    {| user_id := user_id user;
       user_username := user_username user;
       user_email := user_email user;
       user_password := user_password user;
       user_createdAt := user_createdAt user;
       user_subdomain := user_subdomain user;
       user_sites := user_sites user ++ [site] |} in
  let users := <[userId := user]> users in
  if negb (up_write_users_ok env) then Some (UploadRejected UploadFailed, d)
  else
  Some (Published
          {| ok_slug := finalSlug;
             ok_url := Js.get urls selectedDomain;
             ok_urls := urls;
             ok_domain := selectedDomain;
             ok_primaryUrl := Js.get urls PRIMARY_DOMAIN;
             ok_site := site |},
        writeUsers users d)
  end end end end end.

(** [GET /api/user/sites] for the authenticated user [userId]; [read_ok]
    says whether [users.json] could be read and parsed.  The answer is the
    empty list when the read of [users] finds nothing, and also when it
    finds an inherited value: [user.sites.map] throws and the catch block
    answers [[]]. *)
Definition userSites (read_ok : bool) (userId : string) (d : Disk)
    : list SiteView :=
  if negb read_ok then []
  else
  match Js.get (USERS_FILE d) userId with
  | Js.Undefined => []
  | Js.Inherited _ => []
  | Js.Own user =>
      map (λ site,
             {| view_site := site;
                view_url :=
                  Js.or_value (Js.get (site_urls site) (site_domain site))
                              (Js.get (site_urls site) PRIMARY_DOMAIN);
                view_primaryUrl := Js.get (site_urls site) PRIMARY_DOMAIN |})
          (user_sites user)
  end.

(** The disks the server can be in: it starts from [initial_disk] and
    moves by registrations and uploads only. *)
Inductive reachable : Disk → Prop :=
  | reachable_initial : reachable initial_disk
  | reachable_register env body d :
      reachable d → reachable (register env body d).2
  | reachable_upload env userId body d r d' :
      reachable d → upload env userId body d = Some (r, d') →
      reachable d'.

End Server.

(** The configuration of the repository. *)
Module Deployment.
Definition SUPPORTED_DOMAINS : list string :=
  ["ntandostore"; "ntando.app"; "ntando.cloud"; "ntando.zw"; "ntl.cloud";
   "ntl.ai"; "ntando.tech"; "ntando.dev"; "ntando.host"; "ntando.site"].
Definition PRIMARY_DOMAIN : string := "ntandostore".
End Deployment.

(** ** Vocabulary of the statements *)

(** The slugs of a user's existing sites. *)
Definition slugs (sites : list Site) : list string := site_slug <$> sites.

(** The values the slug loop tries, in order: the candidate itself, then
    the candidate with the suffixes [-1], [-2], ... *)
Definition attempt (slug : string) (j : nat) : string :=
  match j with
  | 0 => slug
  | S _ => slug +:+ "-" +:+ pretty j
  end.

(** Every file-system call of one upload succeeds. *)
Definition up_io_ok (env : UploadEnv) : Prop :=
  up_read_ok env = true ∧ up_mkdir_ok env = true
  ∧ up_write_page_ok env = true ∧ up_write_users_ok env = true.

(** *** The slug grammar, in the words of the specification *)

Definition chars (s : string) : list ascii := String.list_ascii_of_string s.

(** The characters of [^[a-zA-Z0-9-]+$]. *)
Definition slug_grammar_alphabet : string :=
  "abcdefghijklmnopqrstuvwxyzABCDEFGHIJKLMNOPQRSTUVWXYZ0123456789-".

(** A slug is valid when it matches [^[a-zA-Z0-9-]+$], its length is in
    [3, 63], and it neither starts nor ends with a hyphen. *)
Definition slug_grammar (s : string) : Prop :=
  (s ≠ "" ∧ ∀ c, c ∈ chars s → c ∈ chars slug_grammar_alphabet)
  ∧ 3 ≤ String.length s ≤ 63
  ∧ (¬ ∃ r, s = "-" +:+ r)
  ∧ (¬ ∃ r, s = r +:+ "-").

(** *** Normalization, in the words of the specification *)

(** Lowercasing, letter by letter. *)
Definition lowercase_letter (c : ascii) : ascii :=
  match c with
  | "A" => "a" | "B" => "b" | "C" => "c" | "D" => "d" | "E" => "e"
  | "F" => "f" | "G" => "g" | "H" => "h" | "I" => "i" | "J" => "j"
  | "K" => "k" | "L" => "l" | "M" => "m" | "N" => "n" | "O" => "o"
  | "P" => "p" | "Q" => "q" | "R" => "r" | "S" => "s" | "T" => "t"
  | "U" => "u" | "V" => "v" | "W" => "w" | "X" => "x" | "Y" => "y"
  | "Z" => "z" | _ => c
  end%char.

Fixpoint lowercased (s : string) : string :=
  match s with
  | "" => ""
  | String c r => String (lowercase_letter c) (lowercased r)
  end.

(** The characters of [[a-z0-9]]. *)
Definition slug_letters : string := "abcdefghijklmnopqrstuvwxyz0123456789".

Definition outside (c : ascii) : bool :=
  bool_decide (c ∉ chars slug_letters).

(** What is left of [s] after its longest prefix of characters outside
    [[a-z0-9]]. *)
Fixpoint skip_run (s : string) : string :=
  match s with
  | String c r => if outside c then skip_run r else s
  | "" => ""
  end.

(** Every maximal run of characters outside [[a-z0-9]] replaced by a
    single hyphen. *)
Equations? replace_maximal_runs (s : string) : string
    by wf (String.length s) lt :=
  replace_maximal_runs "" := "";
  replace_maximal_runs (String c r) :=
    if outside c then String "-" (replace_maximal_runs (skip_run r))
    else String c (replace_maximal_runs r).
Proof.
  all: simpl; try lia.
  assert (String.length (skip_run r) ≤ String.length r) as Hskip; [|lia].
  clear. induction r as [|c r IH]; simpl; [lia|].
  destruct (outside c); simpl; lia.
Qed.

(** All the leading hyphens stripped. *)
Fixpoint strip_leading_hyphens (s : string) : string :=
  match s with
  | String c r => if Ascii.eqb c "-" then strip_leading_hyphens r else s
  | "" => ""
  end.

(** All the trailing hyphens stripped: a hyphen goes when only hyphens
    follow it. *)
Fixpoint strip_trailing_hyphens (s : string) : string :=
  match s with
  | "" => ""
  | String c r =>
      let r' := strip_trailing_hyphens r in
      if Ascii.eqb c "-" && String.eqb r' "" then "" else String c r'
  end.

(** Lowercase, replace every maximal run of characters outside [[a-z0-9]]
    with a single hyphen, strip leading and trailing hyphens. *)
Definition normalize_words (rawName : string) : string :=
  strip_trailing_hyphens
    (strip_leading_hyphens (replace_maximal_runs (lowercased rawName))).

(** No two hyphens in a row. *)
Fixpoint no_double_hyphen (s : string) : bool :=
  match s with
  | String a r =>
      negb (Ascii.eqb a "-" && Js.startsWith r "-") && no_double_hyphen r
  | "" => true
  end.

(** The request gets as far as the slug check: it has content, the user
    store can be read and the authenticated user is in it. *)
Definition reaches_slug_check (env : UploadEnv) (userId : string)
    (body : UploadBody) (d : Disk) : Prop :=
  Js.truthy (html body) = true ∧ up_read_ok env = true
  ∧ is_Some (USERS_FILE d !! userId).

(** *** Subdomain identities *)


Definition hyphen_free (w : string) : bool :=
  Js.all_chars (λ c, negb (Ascii.eqb c "-")) w.

(** The subdomain of a user is the username, a hyphen, and a suffix
    without hyphen. *)
Definition named_by_username (u : User) : Prop :=
  ∃ w, user_subdomain u = user_username u +:+ "-" +:+ w
       ∧ hyphen_free w = true.

(** What registrations and uploads keep true of [users.json]. *)
Definition store_inv (users : gmap string User) : Prop :=
  (∀ i u, users !! i = Some u → named_by_username u)
  ∧ (∀ i j u v,
        users !! i = Some u → users !! j = Some v → i ≠ j →
        user_username u ≠ user_username v).

(** *** Weaving, in the words of the specification *)

(** [block] inserted immediately after the first [marker] of [doc]; no
    effect when [doc] has no [marker]. *)
Definition insert_after (marker block doc : string) : string :=
  match Js.find_first marker doc with
  | Some (before, rest) => before +:+ marker +:+ block +:+ rest
  | None => doc
  end.

(** [block] inserted immediately before the first [marker] of [doc]; no
    effect when [doc] has no [marker]. *)
Definition insert_before (marker block doc : string) : string :=
  match Js.find_first marker doc with
  | Some (before, rest) => before +:+ block +:+ marker +:+ rest
  | None => doc
  end.

Definition favicon_link (favicon : string) : string :=
  newline +:+ "    <link rel=" +:+ dquote +:+ "icon" +:+ dquote
  +:+ " href=" +:+ dquote +:+ "data:image/x-icon;base64," +:+ favicon
  +:+ dquote +:+ ">".

Definition style_block (css : string) : string :=
  "<style>" +:+ css +:+ "</style>".

Definition script_block (js : string) : string :=
  "<script>" +:+ js +:+ "</script>".

(** An insertion made only when the asset is supplied. *)
Definition when_supplied (asset : option string)
    (insert : string → string → string) (doc : string) : string :=
  match asset with
  | Some a => if String.eqb a "" then doc else insert a doc
  | None => doc
  end.

(** The submitted HTML with the favicon link after the head opens, the
    style block before the head closes and the script block before the
    body closes, each asset as it was supplied. *)
Definition weave_words (html : string) (favicon css js : option string)
    : string :=
  when_supplied js (λ a, insert_before "</body>" (script_block a))
    (when_supplied css (λ a, insert_before "</head>" (style_block a))
       (when_supplied favicon (λ a, insert_after "<head>" (favicon_link a))
          html)).

Definition dollar_free (s : string) : bool :=
  Js.all_chars (λ c, negb (Ascii.eqb c "$")) s.

Definition asset_dollar_free (asset : option string) : bool :=
  match asset with
  | Some a => dollar_free a
  | None => true
  end.

(** *** Recorded sites and their pages *)

(** The site [s] is recorded for the user [u], stored under the id [i]. *)
Definition recorded (d : Disk) (i : string) (u : User) (s : Site) : Prop :=
  USERS_FILE d !! i = Some u ∧ s ∈ user_sites u.

(** Where the page of a site is written, below [USERS_DIR]. *)
Definition pagePath (u : User) (s : Site) : list string :=
  [user_subdomain u; site_slug s; "index.html"].

(** The record of a user with one more site at the end of its list. *)
Definition withSite (user : User) (site : Site) : User :=
  {| user_id := user_id user;
     user_username := user_username user;
     user_email := user_email user;
     user_password := user_password user;
     user_createdAt := user_createdAt user;
     user_subdomain := user_subdomain user;
     user_sites := user_sites user ++ [site] |}.

(** *** Derived slugs *)

(** The characters of a derived slug. *)
Definition derived_slug_alphabet : string :=
  "abcdefghijklmnopqrstuvwxyz0123456789-".

Definition norm_char (c : ascii) : bool :=
  Js.slug_char c || Ascii.eqb c "-".

(** The normalized name, before the fallback [|| 'site']. *)
Definition normalized (rawName : string) : string :=
  Js.strip_edge_hyphens (Js.replace_runs false (Js.toLowerCase rawName)).

(** The draw is one [generateSubdomain] can make: the number below 9999
    and the two indices below 10. *)
Definition draw_in_range (r : Draw) : Prop :=
  (N.of_nat (rnd_number r) < 9999)%N
  ∧ rnd_adjective r < 10 ∧ rnd_noun r < 10.

(** *** Occurrences of a marker *)

(** [doc] reads [before], then [marker], then [rest]. *)
Definition occurs_at (marker before rest doc : string) : Prop :=
  doc = before +:+ marker +:+ rest.

(** [marker] occurs in [doc] after [before], and nowhere earlier. *)
Definition first_occurrence (marker before rest doc : string) : Prop :=
  occurs_at marker before rest doc
  ∧ ∀ before' rest', occurs_at marker before' rest' doc →
      String.length before ≤ String.length before'.

Definition occurs (marker doc : string) : Prop :=
  ∃ before rest, occurs_at marker before rest doc.

(** *** Headers *)

Definition space_free (s : string) : Prop := " "%char ∉ chars s.

(** *** The username grammar *)

(** The characters of [^[a-zA-Z0-9_-]+$]. *)
Definition username_alphabet : string :=
  "abcdefghijklmnopqrstuvwxyzABCDEFGHIJKLMNOPQRSTUVWXYZ0123456789_-".

(** A username is accepted when it matches [^[a-zA-Z0-9_-]+$], has 3 to
    30 characters, neither starts nor ends with a hyphen or an underscore,
    and is not a reserved word, in any letter case. *)
Definition username_grammar (u : string) : Prop :=
  (u ≠ "" ∧ ∀ c, c ∈ chars u → c ∈ chars username_alphabet)
  ∧ 3 ≤ String.length u ≤ 30
  ∧ (¬ ∃ r, u = "-" +:+ r) ∧ (¬ ∃ r, u = r +:+ "-")
  ∧ (¬ ∃ r, u = "_" +:+ r) ∧ (¬ ∃ r, u = r +:+ "_")
  ∧ lowercased u ∉ reserved.

(** *** The store after a call *)

(** The store after one upload, whatever the response was. *)
Definition after_upload (domains : list string) (primary : string)
    (env : UploadEnv) (userId : string) (body : UploadBody) (d : Disk)
    : Disk :=
  match upload domains primary env userId body d with
  | Some (_, d') => d'
  | None => d
  end.

(** ** Sample inputs *)

Definition fresh_user : User :=
  {| user_id := "u1"; user_username := "alice"; user_email := "a@x.org";
     user_password := "hash"; user_createdAt := "2024-01-01T00:00:00.000Z";
     user_subdomain := "alice-quickweb42"; user_sites := [] |}.

Definition one_user_disk : Disk :=
  {| USERS_FILE := {[ "u1" := fresh_user ]}; dirs := ∅; files := ∅ |}.

Definition all_ok_env : UploadEnv :=
  {| up_read_ok := true; up_mkdir_ok := true; up_write_page_ok := true;
     up_siteId := "s1"; up_createdAt := "2024-01-02T00:00:00.000Z";
     up_updatedAt := "2024-01-02T00:00:00.000Z";
     up_write_users_ok := true |}.

Definition test_body : UploadBody :=
  {| html := Some "<html><head></head><body></body></html>";
     css := None; js := None; siteName := None; siteSlug := Some "test";
     favicon := None; preferredDomain := None |}.

Definition foreign_domain_body : UploadBody :=
  {| html := Some "<html><head></head><body></body></html>";
     css := None; js := None; siteName := Some "Shop"; siteSlug := Some "shop";
     favicon := None; preferredDomain := Some "ntando.io" |}.

Definition short_slug_body : UploadBody :=
  {| html := Some "<html><head></head><body></body></html>";
     css := None; js := None; siteName := Some "Ab"; siteSlug := Some "Ab";
     favicon := None; preferredDomain := None |}.

Definition punctuation_name_body : UploadBody :=
  {| html := Some "<html><head></head><body></body></html>";
     css := None; js := None; siteName := Some "!!!"; siteSlug := None;
     favicon := None; preferredDomain := None |}.

Definition mixed_case_body : UploadBody :=
  {| html := Some "<html><head></head><body></body></html>";
     css := None; js := None; siteName := Some "My Page";
     siteSlug := Some "MyPage"; favicon := None; preferredDomain := None |}.

Definition carol : User :=
  {| user_id := "u0"; user_username := "carol"; user_email := "c@x.org";
     user_password := "hash"; user_createdAt := "2024-01-01T00:00:00.000Z";
     user_subdomain := "bob-quicksite1"; user_sites := [] |}.

(** A [users.json] that no registration wrote: the record of [carol]
    holds the subdomain [bob-quicksite1]. *)
Definition foreign_disk : Disk :=
  {| USERS_FILE := {[ "u0" := carol ]}; dirs := ∅; files := ∅ |}.

Definition bob_env : RegisterEnv :=
  {| reg_read_ok := true; reg_hashedPassword := "hash2"; reg_userId := "u9";
     reg_now := "2024-01-03T00:00:00.000Z";
     reg_draw := {| rnd_number := 0; rnd_adjective := 0; rnd_noun := 0 |};
     reg_write_ok := true; reg_mkdir_ok := true; reg_token := "token" |}.

Definition bob_body : RegisterBody :=
  {| username := Some "bob"; email := Some "bob@x.org";
     password := Some "secret1" |}.

Definition price_script : string := "var price = '$' + 5;".

Definition price_script_body : UploadBody :=
  {| html := Some "<html><head></head><body></body></html>";
     css := None; js := Some price_script; siteName := Some "Shop";
     siteSlug := Some "shop"; favicon := None; preferredDomain := None |}.

(** The store after the registration of [bob]. *)
Definition bob_disk : Disk := (register bob_env bob_body initial_disk).2.

(** The site [bob] gets by publishing [test_body], his record and the
    store after it. *)
Definition bob : User :=
  {| user_id := "u9"; user_username := "bob"; user_email := "bob@x.org";
     user_password := "hash2"; user_createdAt := "2024-01-03T00:00:00.000Z";
     user_subdomain := "bob-quicksite1"; user_sites := [] |}.

Definition bob_site : Site :=
  {| site_id := "s1"; site_name := "Untitled Site"; site_slug := "test";
     site_domain := "ntandostore";
     site_urls :=
       generateSiteUrls Deployment.SUPPORTED_DOMAINS "bob-quicksite1" "test";
     site_createdAt := "2024-01-02T00:00:00.000Z";
     site_updatedAt := "2024-01-02T00:00:00.000Z";
     site_visits := 0; site_published := true |}.

Definition bob_page : string := "<html><head></head><body></body></html>".

Definition bob_published_disk : Disk :=
  {| USERS_FILE := {[ "u9" := withSite bob bob_site ]};
     dirs := {[ ["bob-quicksite1"]; ["bob-quicksite1"; "test"] ]};
     files := {[ ["bob-quicksite1"; "test"; "index.html"] := bob_page ]} |}.

Definition reserved_name_body : RegisterBody :=
  {| username := Some "Admin"; email := Some "root@x.org";
     password := Some "secret1" |}.

Definition no_mkdir_env : RegisterEnv :=
  {| reg_read_ok := true; reg_hashedPassword := "hash2"; reg_userId := "u9";
     reg_now := "2024-01-03T00:00:00.000Z";
     reg_draw := {| rnd_number := 0; rnd_adjective := 0; rnd_noun := 0 |};
     reg_write_ok := true; reg_mkdir_ok := false; reg_token := "token" |}.

(** A verifier that accepts one token. *)
Definition sample_verify (token : string) : option Identity :=
  if String.eqb token "abc.def"
  then Some {| token_userId := "u9"; token_username := "bob" |}
  else None.

(** Two users whose subdomains are a prefix of one another up to a
    hyphen: [abc] and [abc-quicksite1-xyz]. *)
Definition abc_env : RegisterEnv :=
  {| reg_read_ok := true; reg_hashedPassword := "hash3"; reg_userId := "u1";
     reg_now := "2024-01-04T00:00:00.000Z";
     reg_draw := {| rnd_number := 0; rnd_adjective := 0; rnd_noun := 0 |};
     reg_write_ok := true; reg_mkdir_ok := true; reg_token := "token1" |}.

Definition abc_body : RegisterBody :=
  {| username := Some "abc"; email := Some "abc@x.org";
     password := Some "secret1" |}.

Definition xyz_env : RegisterEnv :=
  {| reg_read_ok := true; reg_hashedPassword := "hash4"; reg_userId := "u2";
     reg_now := "2024-01-05T00:00:00.000Z";
     reg_draw := {| rnd_number := 1; rnd_adjective := 1; rnd_noun := 2 |};
     reg_write_ok := true; reg_mkdir_ok := true; reg_token := "token2" |}.

Definition xyz_body : RegisterBody :=
  {| username := Some "abc-quicksite1-xyz"; email := Some "xyz@x.org";
     password := Some "secret2" |}.

Definition long_slug_body : UploadBody :=
  {| html := Some "<html><head></head><body>abc</body></html>";
     css := None; js := None; siteName := Some "Home";
     siteSlug := Some "xyz-brightpage2-home"; favicon := None;
     preferredDomain := None |}.

Definition home_body : UploadBody :=
  {| html := Some "<html><head></head><body>xyz</body></html>";
     css := None; js := None; siteName := Some "Home";
     siteSlug := Some "home"; favicon := None; preferredDomain := None |}.


Definition two_homes_disk : Disk :=
  after_upload Deployment.SUPPORTED_DOMAINS Deployment.PRIMARY_DOMAIN
    all_ok_env "u2" home_body
    (after_upload Deployment.SUPPORTED_DOMAINS Deployment.PRIMARY_DOMAIN
       all_ok_env "u1" long_slug_body
       (register xyz_env xyz_body
          (register abc_env abc_body initial_disk).2).2).

(** Uploads of [bob] that select a domain the server does not have: one
    that is the name of a built-in function of every object, and one that
    is [__proto__]. *)
Definition constructor_domain_body : UploadBody :=
  {| html := Some "<html><head></head><body></body></html>";
     css := None; js := None; siteName := Some "Blog"; siteSlug := Some "blog";
     favicon := None; preferredDomain := Some "constructor" |}.

Definition proto_domain_body : UploadBody :=
  {| html := Some "<html><head></head><body></body></html>";
     css := None; js := None; siteName := Some "Wiki"; siteSlug := Some "wiki";
     favicon := None; preferredDomain := Some "__proto__" |}.

Definition app_domain_body : UploadBody :=
  {| html := Some "<html><head></head><body></body></html>";
     css := None; js := None; siteName := Some "Shop"; siteSlug := Some "shop";
     favicon := None; preferredDomain := Some "ntando.app" |}.

(** The store after [bob] has published five sites: one on the primary
    domain, one on another configured domain, one on [ntando.io], which is
    not configured, and the two above. *)
Definition bob_domains_disk : Disk :=
  after_upload Deployment.SUPPORTED_DOMAINS Deployment.PRIMARY_DOMAIN
    all_ok_env "u9" proto_domain_body
    (after_upload Deployment.SUPPORTED_DOMAINS Deployment.PRIMARY_DOMAIN
       all_ok_env "u9" constructor_domain_body
       (after_upload Deployment.SUPPORTED_DOMAINS Deployment.PRIMARY_DOMAIN
          all_ok_env "u9" foreign_domain_body
          (after_upload Deployment.SUPPORTED_DOMAINS
             Deployment.PRIMARY_DOMAIN all_ok_env "u9" app_domain_body
             bob_published_disk))).

Definition bob_domains : User :=
  default bob (USERS_FILE bob_domains_disk !! "u9").

(** * Properties *)

(** ** Strings *)

#[local] Arguments String.append !_ _ / : simpl nomatch.

Lemma length_string_app (a b : string) :
  String.length (a +:+ b) = String.length a + String.length b.
Proof. induction a as [|c a IH]; simpl; [done | by rewrite IH]. Qed.

Lemma string_app_assoc (a b c : string) : (a +:+ b) +:+ c = a +:+ b +:+ c.
Proof. induction a as [|x a IH]; simpl; [done | by rewrite IH]. Qed.

(** ** URL generation *)

Section UrlMap.
Variable f : string → string.

Lemma lookup_foldl_insert (l : list string) (m0 : gmap string string) k :
  foldl (λ urls domain, <[domain := f domain]> urls) m0 l !! k
  = if decide (k ∈ l) then Some (f k) else m0 !! k.
Proof.
  revert m0. induction l as [|x l IH]; intros m0; cbn [foldl].
  - by rewrite decide_False by apply not_elem_of_nil.
  - rewrite IH. destruct (decide (k ∈ l)) as [Hin|Hnin].
    + by rewrite decide_True by (by right).
    + destruct (decide (k = x)) as [->|Hne].
      * rewrite decide_True by left. by rewrite lookup_insert_eq.
      * rewrite decide_False by (by intros [?|?]%elem_of_cons).
        by rewrite lookup_insert_ne.
Qed.

Lemma dom_foldl_insert (l : list string) (m0 : gmap string string) :
  dom (foldl (λ urls domain, <[domain := f domain]> urls) m0 l)
  = list_to_set l ∪ dom m0.
Proof.
  apply set_eq. intros k.
  rewrite elem_of_dom, lookup_foldl_insert, elem_of_union,
    elem_of_list_to_set, elem_of_dom.
  destruct (decide (k ∈ l)) as [Hin|Hnin]; [|tauto].
  split; [by left | by eexists].
Qed.
End UrlMap.

Lemma lookup_generateSiteUrls domains userSubdomain siteSlug d :
  generateSiteUrls domains userSubdomain siteSlug !! d
  = if decide (d ∈ domains)
    then Some (siteUrl userSubdomain siteSlug d) else None.
Proof.
  unfold generateSiteUrls.
  rewrite (lookup_foldl_insert (siteUrl userSubdomain siteSlug)).
  by rewrite lookup_empty.
Qed.

(** C7. For every subdomain identity, slug and configured domain list, the
    URL mapping has an entry for a key exactly when the key is a domain of
    the list, so its keys are the domains of the list, one entry each; the
    entry for the domain [d] is the string
    [https://{subdomain}-{slug}.{d}]; and for ["alice-quickweb42"],
    ["my-page"] and the domains [example.com], [example.dev] it is the
    two-entry mapping of the specification. *)
Theorem generateSiteUrls_one_entry_per_domain :
  (∀ (domains : list string) (subdomain slug d : string),
      (d ∈ domains →
       generateSiteUrls domains subdomain slug !! d
       = Some ("https://" +:+ subdomain +:+ "-" +:+ slug +:+ "." +:+ d))
      ∧ (d ∉ domains → generateSiteUrls domains subdomain slug !! d = None))
  ∧ (∀ (domains : list string) (subdomain slug : string),
      dom (generateSiteUrls domains subdomain slug) = list_to_set domains
      ∧ (NoDup domains →
         size (generateSiteUrls domains subdomain slug) = length domains))
  ∧ generateSiteUrls ["example.com"; "example.dev"] "alice-quickweb42"
      "my-page"
    = {[ "example.com" := "https://alice-quickweb42-my-page.example.com";
         "example.dev" := "https://alice-quickweb42-my-page.example.dev" ]}.
Proof.
  split; [|split].
  - intros domains subdomain slug d.
    rewrite lookup_generateSiteUrls. split; intros Hd.
    + by rewrite decide_True.
    + by rewrite decide_False.
  - intros domains subdomain slug.
    assert (dom (generateSiteUrls domains subdomain slug)
            = list_to_set domains) as Hdom.
    { unfold generateSiteUrls.
      by rewrite dom_foldl_insert, dom_empty_L, union_empty_r_L. }
    split; [done|]. intros Hnd.
    rewrite <- size_dom, Hdom. by apply size_list_to_set.
  - apply map_eq. intros k. rewrite lookup_generateSiteUrls.
    destruct (decide (k = "example.com")) as [->|H1]; [done|].
    destruct (decide (k = "example.dev")) as [->|H2]; [done|].
    rewrite decide_False.
    + by rewrite lookup_insert_ne, lookup_singleton_ne.
    + intros Hin. repeat (apply elem_of_cons in Hin as [?|Hin]; [done|]).
      by apply elem_of_nil in Hin.
Qed.

(** ** Slug uniqueness *)

Lemma slugTaken_true sites s : slugTaken sites s = true ↔ s ∈ slugs sites.
Proof.
  unfold slugTaken, slugs. rewrite existsb_exists, list_elem_of_fmap.
  split.
  - intros (site & Hin & Heq). apply String.eqb_eq in Heq.
    exists site. by rewrite <- list_elem_of_In in Hin.
  - intros (site & -> & Hin). exists site.
    rewrite <- list_elem_of_In. split; [done | apply String.eqb_refl].
Qed.

Lemma slugTaken_false sites s : slugTaken sites s = false ↔ s ∉ slugs sites.
Proof.
  rewrite <- slugTaken_true. by destruct (slugTaken sites s).
Qed.

Lemma attempt_inj slug : Inj (=) (=) (attempt slug).
Proof.
  intros [|j] [|k] Heq; simpl in Heq.
  - done.
  - apply (f_equal String.length) in Heq.
    rewrite length_string_app in Heq. simpl in Heq. lia.
  - apply (f_equal String.length) in Heq.
    rewrite length_string_app in Heq. simpl in Heq. lia.
  - apply (inj (String.app slug)) in Heq.
    apply (inj (String.app "-")) in Heq.
    by apply (inj pretty) in Heq.
Qed.

(** Started on the [j]-th attempt with enough fuel to reach an attempt
    that is free, the loop returns the first free attempt from [j] on. *)
Lemma uniqueSlug_loop_first_free slug sites fuel j :
  (∃ m, (j ≤ m < j + fuel) ∧ attempt slug m ∉ slugs sites) →
  ∃ m, j ≤ m
    ∧ uniqueSlug_loop fuel slug sites (attempt slug j) (S j)
      = Some (attempt slug m)
    ∧ (attempt slug m ∉ slugs sites)
    ∧ ∀ i, j ≤ i < m → attempt slug i ∈ slugs sites.
Proof.
  revert j. induction fuel as [|fuel IH]; intros j (m & Hm & Hfree).
  - lia.
  - simpl. destruct (slugTaken sites (attempt slug j)) eqn:Htaken.
    + apply slugTaken_true in Htaken.
      assert (m ≠ j) by (intros ->; contradiction).
      destruct (IH (S j)) as (m' & Hle & Hrun & Hfree' & Hbelow).
      { exists m. split; [lia | done]. }
      exists m'. split; [lia|]. split; [exact Hrun|]. split; [done|].
      intros i Hi. destruct (decide (i = j)) as [->|]; [done|].
      apply Hbelow. lia.
    + apply slugTaken_false in Htaken.
      exists j. split; [lia|]. split; [done|]. split; [done|].
      intros i Hi. lia.
Qed.

(** One of the first [length sites + 1] attempts is free: they are
    pairwise different and the user has only [length sites] slugs. *)
Lemma attempt_free_exists slug sites :
  ∃ m, m < S (length sites) ∧ attempt slug m ∉ slugs sites.
Proof.
  set (tried := attempt slug <$> seq 0 (S (length sites))).
  destruct (decide (Forall (λ s, s ∈ slugs sites) tried)) as [Hall|Hex].
  - exfalso.
    assert (NoDup tried) as Hnd.
    { pose proof (attempt_inj slug). apply (NoDup_fmap_2 _), NoDup_seq. }
    assert (tried ⊆+ slugs sites) as Hsub.
    { apply NoDup_submseteq; [done|]. by apply Forall_forall. }
    apply submseteq_length in Hsub.
    unfold tried, slugs in Hsub.
    rewrite !length_fmap, length_seq in Hsub. lia.
  - apply not_Forall_Exists in Hex; [|apply _].
    apply Exists_exists in Hex as (s & Hin & Hfree).
    apply list_elem_of_fmap in Hin as (m & -> & Hm).
    apply elem_of_seq in Hm. exists m. split; [lia | done].
Qed.

Lemma uniqueSlug_first_free slug sites :
  ∃ m, uniqueSlug slug sites = Some (attempt slug m)
    ∧ (attempt slug m ∉ slugs sites)
    ∧ ∀ i, i < m → attempt slug i ∈ slugs sites.
Proof.
  destruct (attempt_free_exists slug sites) as (m0 & Hm0 & Hfree0).
  destruct (uniqueSlug_loop_first_free slug sites (S (length sites)) 0)
    as (m & _ & Hrun & Hfree & Hbelow).
  { exists m0. split; [lia | done]. }
  exists m. split; [exact Hrun|]. split; [done|].
  intros i Hi. apply Hbelow. lia.
Qed.

Lemma uniqueSlug_at slug sites m :
  (∀ i, i < m → attempt slug i ∈ slugs sites) →
  attempt slug m ∉ slugs sites →
  uniqueSlug slug sites = Some (attempt slug m).
Proof.
  intros Hbelow Hfree.
  destruct (uniqueSlug_first_free slug sites) as (m' & -> & Hfree' & Hbelow').
  destruct (Nat.lt_trichotomy m' m) as [Hlt | [-> | Hgt]].
  - destruct Hfree'. by apply Hbelow.
  - done.
  - destruct Hfree. by apply Hbelow'.
Qed.

(** ** Property reads *)

Lemma get_Own {A} (o : gmap string A) key a :
  Js.get o key = Js.Own a ↔ o !! key = Some a.
Proof.
  unfold Js.get. destruct (o !! key) as [b|].
  - split; by intros [= ->].
  - by destruct (Js.inherits key).
Qed.

Lemma get_own {A} (o : gmap string A) key a :
  o !! key = Some a → Js.get o key = Js.Own a.
Proof. apply get_Own. Qed.

Lemma get_Inherited {A} (o : gmap string A) key key' :
  Js.get o key = Js.Inherited key'
  ↔ o !! key = None ∧ key ∈ Js.object_prototype_keys ∧ key' = key.
Proof.
  unfold Js.get, Js.inherits. destruct (o !! key) as [b|].
  { split; [done | by intros [? _]]. }
  destruct (existsb _ _) eqn:Hex.
  - apply existsb_exists in Hex as (k & Hin%list_elem_of_In & ->%String.eqb_eq).
    split; [by intros [= <-] | by intros (_ & _ & ->)].
  - split; [done|]. intros (_ & Hin & _).
    assert (existsb (String.eqb key) Js.object_prototype_keys = true)
      as Hex'; [|congruence].
    apply existsb_exists. exists key.
    split; [by apply list_elem_of_In | apply String.eqb_refl].
Qed.

Lemma get_Undefined {A} (o : gmap string A) key :
  Js.get o key = Js.Undefined
  ↔ o !! key = None ∧ key ∉ Js.object_prototype_keys.
Proof.
  destruct (Js.get o key) as [a|key'|] eqn:Hget.
  - apply get_Own in Hget. split; [done|]. intros [? _]. congruence.
  - apply get_Inherited in Hget as (_ & Hin & _). split; [done | by intros [_ ?]].
  - split; [|done]. intros _. unfold Js.get, Js.inherits in Hget.
    destruct (o !! key); [done|]. split; [done|].
    destruct (existsb _ _) eqn:Hex; [done|]. intros Hin.
    assert (existsb (String.eqb key) Js.object_prototype_keys = true)
      as Hex'; [|congruence].
    apply existsb_exists. exists key.
    split; [by apply list_elem_of_In | apply String.eqb_refl].
Qed.

(** ** The upload handler, case by case *)

Lemma upload_total domains primary env userId body d :
  is_Some (upload domains primary env userId body d).
Proof.
  unfold upload.
  destruct (html body) as [h|]; [|by eexists].
  destruct (String.eqb h ""); [by eexists|].
  destruct (negb (up_read_ok env)); [by eexists|].
  destruct (Js.get (USERS_FILE d) userId) as [user|key|]; [..|by eexists];
    (destruct (candidateSlug (siteSlug body) (siteName body)) as [slug|];
     [|by eexists]);
    (destruct (negb (validateSubdomain slug)); [by eexists|]);
    [|by eexists].
  destruct (uniqueSlug_first_free slug (user_sites user)) as (m & -> & _).
  destruct (negb (up_mkdir_ok env)); [by eexists|].
  destruct (negb (up_write_page_ok env)); [by eexists|].
  destruct (negb (up_write_users_ok env)); by eexists.
Qed.

(** What a success response tells about the request and the two disks. *)
Lemma upload_Published domains primary env userId body d r d' :
  upload domains primary env userId body d = Some (Published r, d') →
  ∃ h user slug user',
    html body = Some h ∧ h ≠ ""
    ∧ up_io_ok env
    ∧ USERS_FILE d !! userId = Some user
    ∧ candidateSlug (siteSlug body) (siteName body) = Some slug
    ∧ validateSubdomain slug = true
    ∧ uniqueSlug slug (user_sites user) = Some (ok_slug r)
    ∧ ok_urls r = generateSiteUrls domains (user_subdomain user) (ok_slug r)
    ∧ ok_domain r = Js.or_else (preferredDomain body) primary
    ∧ ok_url r = Js.get (ok_urls r) (ok_domain r)
    ∧ ok_primaryUrl r = Js.get (ok_urls r) primary
    ∧ ok_site r
      = {| site_id := up_siteId env;
           site_name := Js.or_else (siteName body) "Untitled Site";
           site_slug := ok_slug r;
           site_domain := ok_domain r;
           site_urls := ok_urls r;
           site_createdAt := up_createdAt env;
           site_updatedAt := up_updatedAt env;
           site_visits := 0;
           site_published := true |}
    ∧ USERS_FILE d' = <[userId := user']> (USERS_FILE d)
    ∧ user_sites user' = user_sites user ++ [ok_site r]
    ∧ user_subdomain user' = user_subdomain user
    ∧ user_username user' = user_username user
    ∧ files d'
      = <[[user_subdomain user; ok_slug r; "index.html"] :=
            weave h (favicon body) (css body) (js body)]> (files d).
Proof.
  unfold upload. intros Hup.
  destruct (html body) as [h|]; [|done].
  destruct (String.eqb h "") eqn:Hh; [done|].
  destruct (up_read_ok env) eqn:Hread; [|done]. simpl in Hup.
  destruct (Js.get (USERS_FILE d) userId) as [user|key|] eqn:Huser;
    [..|done];
    (destruct (candidateSlug (siteSlug body) (siteName body)) as [slug|]
       eqn:Hcand; [|done]);
    (destruct (validateSubdomain slug) eqn:Hvalid; [|done]); simpl in Hup;
    [|done].
  apply get_Own in Huser.
  destruct (uniqueSlug slug (user_sites user)) as [finalSlug|] eqn:Huniq;
    [|done].
  destruct (up_mkdir_ok env) eqn:Hmkdir; [|done]. simpl in Hup.
  destruct (up_write_page_ok env) eqn:Hpage; [|done]. simpl in Hup.
  destruct (up_write_users_ok env) eqn:Husers; [|done]. simpl in Hup.
  injection Hup as <- <-. apply String.eqb_neq in Hh.
  eexists h, user, slug, _. simpl. unfold up_io_ok.
  repeat split; try done.
Qed.

(** Conversely: a request with content, a known user and a valid
    candidate slug is published when the file system cooperates. *)
Lemma upload_succeeds domains primary env userId body d h user slug finalSlug :
  html body = Some h → h ≠ "" → up_io_ok env →
  USERS_FILE d !! userId = Some user →
  candidateSlug (siteSlug body) (siteName body) = Some slug →
  validateSubdomain slug = true →
  uniqueSlug slug (user_sites user) = Some finalSlug →
  ∃ r d', upload domains primary env userId body d = Some (Published r, d')
          ∧ ok_slug r = finalSlug.
Proof.
  intros Hh Hne (Hread & Hmkdir & Hpage & Husers) Huser Hcand Hvalid Huniq.
  unfold upload. apply String.eqb_neq in Hne. apply get_own in Huser.
  rewrite Hh, Hne, Hread. simpl. rewrite Huser, Hcand, Hvalid. simpl.
  rewrite Huniq, Hmkdir. simpl. rewrite Hpage. simpl. rewrite Husers. simpl.
  by eexists _, _.
Qed.

Lemma truthy_true v : Js.truthy v = true ↔ ∃ s, v = Some s ∧ s ≠ "".
Proof.
  destruct v as [s|]; simpl.
  - rewrite negb_true_iff, String.eqb_neq. split.
    + intros Hs. by exists s.
    + by intros (s' & [= <-] & Hs).
  - split; [done | by intros (s & ? & _)].
Qed.

Lemma candidateSlug_explicit s siteName :
  s ≠ "" → candidateSlug (Some s) siteName = Some s.
Proof.
  intros Hs. unfold candidateSlug. simpl.
  apply String.eqb_neq in Hs. by rewrite Hs.
Qed.

(** C1. The loop that makes a slug unique within the user's sites returns,
    for every candidate [c] and every list of existing sites, a slug that
    no existing site has; it is [c] itself when no site has [c], and
    otherwise [c-k] for the lowest positive [k] such that no site has
    [c-k].  And when a user who has no site named [test] or [test-1]
    publishes twice with the requested slug [test], the two sites get the
    slugs [test] and [test-1]. *)
Theorem uniqueSlug_resolves :
  (∀ (c : string) (sites : list Site),
      ∃ r, uniqueSlug c sites = Some r
        ∧ (r ∉ slugs sites)
        ∧ (c ∉ slugs sites → r = c)
        ∧ (c ∈ slugs sites →
           ∃ k, 1 ≤ k ∧ r = c +:+ "-" +:+ pretty k
             ∧ (r ∉ slugs sites)
             ∧ ∀ j, 1 ≤ j < k → c +:+ "-" +:+ pretty j ∈ slugs sites))
  ∧ (∀ domains primary env1 env2 userId body1 body2 d user,
      Js.truthy (html body1) = true → Js.truthy (html body2) = true →
      siteSlug body1 = Some "test" → siteSlug body2 = Some "test" →
      up_io_ok env1 → up_io_ok env2 →
      USERS_FILE d !! userId = Some user →
      "test" ∉ slugs (user_sites user) →
      "test-1" ∉ slugs (user_sites user) →
      ∃ r1 d1 r2 d2,
        upload domains primary env1 userId body1 d = Some (Published r1, d1)
        ∧ ok_slug r1 = "test"
        ∧ upload domains primary env2 userId body2 d1
          = Some (Published r2, d2)
        ∧ ok_slug r2 = "test-1").
Proof.
  split.
  - intros c sites.
    destruct (uniqueSlug_first_free c sites) as (m & Hrun & Hfree & Hbelow).
    exists (attempt c m). split; [done|]. split; [done|]. split.
    + intros Hc. destruct m as [|m]; [done|].
      destruct Hc. apply (Hbelow 0). lia.
    + intros Hc. destruct m as [|m]; [done|].
      exists (S m). split; [lia|]. split; [done|]. split; [done|].
      intros [|j] Hj; [lia|]. apply (Hbelow (S j)). lia.
  - intros domains primary env1 env2 userId body1 body2 d user
      Hh1 Hh2 Hs1 Hs2 Hio1 Hio2 Huser Hfree0 Hfree1.
    apply truthy_true in Hh1 as (h1 & Hh1 & Hne1).
    apply truthy_true in Hh2 as (h2 & Hh2 & Hne2).
    destruct (upload_succeeds domains primary env1 userId body1 d h1 user
                "test" "test") as (r1 & d1 & Hup1 & Hslug1); try done.
    { by rewrite Hs1. }
    { by apply (uniqueSlug_at "test" _ 0); [intros i Hi; lia|]. }
    exists r1, d1.
    destruct (upload_Published _ _ _ _ _ _ _ _ Hup1)
      as (h & u & slug & user' & _ & _ & _ & Hu & _ & _ & _ & _ & _ & _ & _
          & Hsite & Hfile & Hsites & _).
    assert (u = user) as -> by congruence.
    assert (slugs (user_sites user')
            = slugs (user_sites user) ++ ["test"]) as Hslugs.
    { unfold slugs. rewrite Hsites, fmap_app, Hsite. simpl.
      by rewrite Hslug1. }
    destruct (upload_succeeds domains primary env2 userId body2 d1 h2 user'
                "test" "test-1") as (r2 & d2 & Hup2 & Hslug2); try done.
    { rewrite Hfile. apply lookup_insert_eq. }
    { by rewrite Hs2. }
    { apply (uniqueSlug_at "test" _ 1).
      - intros i Hi. assert (i = 0) as -> by lia. simpl.
        rewrite Hslugs. apply elem_of_app. right. by left.
      - change (attempt "test" 1) with "test-1". rewrite Hslugs.
        intros [Hin | Hin]%elem_of_app; [done|].
        by apply list_elem_of_singleton in Hin. }
    by exists r2, d2.
Qed.

Lemma uniqueSlug_resolves_witness :
  ∃ r1 d1 r2 d2,
    upload Deployment.SUPPORTED_DOMAINS Deployment.PRIMARY_DOMAIN all_ok_env
      "u1" test_body one_user_disk = Some (Published r1, d1)
    ∧ ok_slug r1 = "test"
    ∧ upload Deployment.SUPPORTED_DOMAINS Deployment.PRIMARY_DOMAIN all_ok_env
        "u1" test_body d1 = Some (Published r2, d2)
    ∧ ok_slug r2 = "test-1".
Proof.
  apply (proj2 uniqueSlug_resolves Deployment.SUPPORTED_DOMAINS
           Deployment.PRIMARY_DOMAIN all_ok_env all_ok_env "u1" test_body
           test_body one_user_disk fresh_user).
  - reflexivity.
  - reflexivity.
  - reflexivity.
  - reflexivity.
  - repeat split.
  - repeat split.
  - reflexivity.
  - simpl. apply not_elem_of_nil.
  - simpl. apply not_elem_of_nil.
Defined.

(** Closes one outcome of the handler: the response and the disk are read
    off the branch, and each point of the statement follows from the
    tests made on the way. *)
Ltac by_cases :=
  eexists _, _; split; [reflexivity|];
  repeat match goal with |- _ ∧ _ => split end;
  intros;
  repeat match goal with
         | H : _ ∧ _ |- _ => destruct H
         | H : _ ∨ _ |- _ => destruct H
         | H : ∃ _, _ |- _ => destruct H
         | H : is_Some _ |- _ => destruct H
         end;
  try simplify_eq; try done; try congruence;
  try (split; [by eexists | done]).

(** ** Failed uploads *)

(** C2. Every upload returns, and when it is rejected, whatever the
    error, [users.json] is as it was, so no site has been appended.  A
    request whose [html] is absent or empty is rejected with
    [MissingContent]; a rejection with [MissingContent] or [InvalidSlug]
    leaves the whole disk as it was, nothing having been written; and when
    the write of the page fails the upload is rejected, the page is not
    stored and, by the first point, no site record is appended; the error
    is the one of the catch block when the request had passed the checks
    and the directory had been made. *)
Theorem upload_rejected_no_append domains primary env userId body d :
  ∃ resp d',
    upload domains primary env userId body d = Some (resp, d')
    ∧ (∀ e, resp = UploadRejected e → USERS_FILE d' = USERS_FILE d)
    ∧ (Js.truthy (html body) = false → resp = UploadRejected MissingContent)
    ∧ (resp = UploadRejected MissingContent ∨ resp = UploadRejected InvalidSlug
       → d' = d)
    ∧ (up_write_page_ok env = false →
       (∃ e, resp = UploadRejected e) ∧ files d' = files d)
    ∧ (up_write_page_ok env = false → up_mkdir_ok env = true →
       reaches_slug_check env userId body d →
       (∃ slug, candidateSlug (siteSlug body) (siteName body) = Some slug
                ∧ validateSubdomain slug = true) →
       resp = UploadRejected UploadFailed).
Proof.
  unfold reaches_slug_check, upload, Js.truthy.
  destruct (html body) as [h|]; [|by_cases].
  destruct (String.eqb h "") eqn:Hh; simpl; [by_cases|].
  destruct (up_read_ok env) eqn:Hread; simpl; [|by_cases].
  destruct (Js.get (USERS_FILE d) userId) as [user|key|] eqn:Huser;
    [apply get_Own in Huser
    |apply get_Inherited in Huser as (Huser & _ & _)
    |apply get_Undefined in Huser as (Huser & _); by_cases];
    (destruct (candidateSlug (siteSlug body) (siteName body)) as [slug|]
       eqn:Hcand; [|by_cases]);
    (destruct (validateSubdomain slug) eqn:Hvalid; simpl; [|by_cases]);
    [|by_cases].
  destruct (uniqueSlug_first_free slug (user_sites user)) as (m & -> & _).
  destruct (up_mkdir_ok env) eqn:Hmkdir; simpl; [|by_cases].
  destruct (up_write_page_ok env) eqn:Hpage; simpl; [|by_cases].
  destruct (up_write_users_ok env) eqn:Husers; simpl; by_cases.
Qed.

(** ** The site record of a successful upload *)

(** C9. The site record of every successful upload has the visit counter
    0 and the publication flag [true]; its display name is the [siteName]
    of the request when one is supplied (present and not empty) and the
    literal [Untitled Site] when [siteName] is absent or empty.  The
    record is the one appended to the sites of the user in [users.json]. *)
Theorem published_site_fields domains primary env userId body d r d' :
  upload domains primary env userId body d = Some (Published r, d') →
  site_visits (ok_site r) = 0
  ∧ site_published (ok_site r) = true
  ∧ (∀ n, siteName body = Some n → n ≠ "" → site_name (ok_site r) = n)
  ∧ (siteName body = None ∨ siteName body = Some "" →
     site_name (ok_site r) = "Untitled Site")
  ∧ ∃ user user',
      USERS_FILE d !! userId = Some user
      ∧ USERS_FILE d' !! userId = Some user'
      ∧ user_sites user' = user_sites user ++ [ok_site r].
Proof.
  intros Hup.
  destruct (upload_Published _ _ _ _ _ _ _ _ Hup)
    as (h & user & slug & user' & _ & _ & _ & Huser & _ & _ & _ & _ & _ & _
        & _ & Hsite & Hfile & Hsites & _).
  rewrite Hsite. simpl. split; [done|]. split; [done|]. split; [|split].
  - intros n -> Hn. simpl. apply String.eqb_neq in Hn. by rewrite Hn.
  - by intros [-> | ->].
  - exists user, user'. split; [done|]. split; [|by rewrite Hsites, Hsite].
    rewrite Hfile. apply lookup_insert_eq.
Qed.

Lemma published_site_fields_witness :
  ∃ r d',
    upload Deployment.SUPPORTED_DOMAINS Deployment.PRIMARY_DOMAIN all_ok_env
      "u1" test_body one_user_disk = Some (Published r, d')
    ∧ site_visits (ok_site r) = 0
    ∧ site_published (ok_site r) = true
    ∧ (∀ n, siteName test_body = Some n → n ≠ "" → site_name (ok_site r) = n)
    ∧ (siteName test_body = None ∨ siteName test_body = Some "" →
       site_name (ok_site r) = "Untitled Site")
    ∧ ∃ user user',
        USERS_FILE one_user_disk !! "u1" = Some user
        ∧ USERS_FILE d' !! "u1" = Some user'
        ∧ user_sites user' = user_sites user ++ [ok_site r].
Proof.
  eexists _, _. split; [reflexivity|].
  apply (published_site_fields Deployment.SUPPORTED_DOMAINS
           Deployment.PRIMARY_DOMAIN all_ok_env "u1" test_body one_user_disk).
  reflexivity.
Defined.

(** ** The selected domain *)

(** What the handler does: [preferredDomain || PRIMARY_DOMAIN], without
    looking at the domain list. *)
Lemma selected_domain domains primary env userId body d r d' :
  upload domains primary env userId body d = Some (Published r, d') →
  site_domain (ok_site r) = Js.or_else (preferredDomain body) primary
  ∧ ok_url r
    = Js.get (generateSiteUrls domains
                (default "" (user_subdomain <$> USERS_FILE d !! userId))
                (ok_slug r))
             (site_domain (ok_site r)).
Proof.
  intros Hup.
  destruct (upload_Published _ _ _ _ _ _ _ _ Hup)
    as (h & user & slug & user' & _ & _ & _ & Huser & _ & _ & _ & Hurls
        & Hdom & Hurl & _ & Hsite & _).
  rewrite Hsite, Huser. simpl. by rewrite Hurl, Hurls, Hdom.
Qed.

(** C3, at a request whose [preferredDomain] is not a configured domain:
    the upload succeeds, the site's domain is the requested [ntando.io],
    which is neither in [SUPPORTED_DOMAINS] nor [PRIMARY_DOMAIN], and the
    [url] of the response is a read that finds nothing, [undefined]. *)
Theorem selected_domain_not_checked :
  ("ntando.io" ∉ Deployment.SUPPORTED_DOMAINS)
  ∧ ∃ r d',
      upload Deployment.SUPPORTED_DOMAINS Deployment.PRIMARY_DOMAIN
        all_ok_env "u1" foreign_domain_body one_user_disk
      = Some (Published r, d')
      ∧ site_domain (ok_site r) = "ntando.io"
      ∧ site_domain (ok_site r) ≠ Deployment.PRIMARY_DOMAIN
      ∧ ok_url r = Js.Undefined.
Proof.
  split.
  - intros Hin. unfold Deployment.SUPPORTED_DOMAINS in Hin.
    repeat (apply elem_of_cons in Hin as [Hin|Hin]; [done|]).
    by apply elem_of_nil in Hin.
  - eexists _, _. split; [reflexivity|]. by vm_compute.
Qed.

(** ** Character classes and string lemmas *)

Lemma slug_char_outside c : Js.slug_char c = negb (outside c).
Proof. destruct c as [[] [] [] [] [] [] [] []]; by vm_compute. Qed.

Lemma subdomain_char_alphabet c :
  subdomain_char c = bool_decide (c ∈ chars slug_grammar_alphabet).
Proof. destruct c as [[] [] [] [] [] [] [] []]; by vm_compute. Qed.

Lemma lower_char_letter c : Js.lower_char c = lowercase_letter c.
Proof. destruct c as [[] [] [] [] [] [] [] []]; by vm_compute. Qed.

Lemma slug_char_not_hyphen c : Js.slug_char c = true → c ≠ "-"%char.
Proof. intros H ->. by vm_compute in H. Qed.

Lemma toLowerCase_lowercased s : Js.toLowerCase s = lowercased s.
Proof.
  induction s as [|c r IH]; simpl; [done|].
  by rewrite IH, lower_char_letter.
Qed.

Lemma ascii_eqb_true (a b : ascii) : Ascii.eqb a b = true ↔ a = b.
Proof. apply Ascii.eqb_eq. Qed.

Lemma rev_app_append s t : String.rev_app s t = String.rev s +:+ t.
Proof.
  unfold String.rev. revert t.
  induction s as [|c s IH]; intros t; simpl; [done|].
  rewrite (IH (String c t)), (IH (String c "")).
  by rewrite string_app_assoc.
Qed.

Lemma rev_cons c s : String.rev (String c s) = String.rev s +:+ String c "".
Proof. unfold String.rev at 1. simpl. apply rev_app_append. Qed.

Lemma rev_snoc s c : String.rev (s +:+ String c "") = String c (String.rev s).
Proof.
  induction s as [|a s IH]; simpl; [done|].
  by rewrite !rev_cons, IH.
Qed.

Lemma rev_involutive s : String.rev (String.rev s) = s.
Proof.
  induction s as [|c s IH]; [done|]. by rewrite rev_cons, rev_snoc, IH.
Qed.

Lemma startsWith_hyphen s :
  Js.startsWith s "-" = true ↔ ∃ r, s = "-" +:+ r.
Proof.
  destruct s as [|c s].
  - split; [done | by intros [r ?]].
  - change (Js.startsWith (String c s) "-") with (Ascii.eqb "-" c && true).
    rewrite andb_true_r, Ascii.eqb_sym, ascii_eqb_true. split.
    + intros ->. by exists s.
    + intros [r Hr]. by injection Hr.
Qed.

Lemma endsWith_hyphen s :
  Js.endsWith s "-" = true ↔ ∃ r, s = r +:+ "-".
Proof.
  unfold Js.endsWith. change (String.rev "-") with "-".
  rewrite startsWith_hyphen. split.
  - intros [r Hr]. exists (String.rev r).
    rewrite <- (rev_involutive s), Hr. apply rev_cons.
  - intros [r ->]. exists (String.rev r). apply rev_snoc.
Qed.

Lemma all_chars_Forall cls s :
  Js.all_chars cls s = true ↔ Forall (λ c, cls c = true) (chars s).
Proof.
  induction s as [|c s IH]; simpl.
  - split; [by constructor | done].
  - rewrite andb_true_iff, IH. unfold chars. simpl. by rewrite Forall_cons.
Qed.

(** [validateSubdomain] accepts exactly the grammar of the specification. *)
Lemma validateSubdomain_grammar s : validateSubdomain s = true ↔ slug_grammar s.
Proof.
  unfold validateSubdomain, slug_grammar.
  rewrite <- startsWith_hyphen, <- endsWith_hyphen.
  assert (Js.test_plus subdomain_char s = true
          ↔ s ≠ "" ∧ ∀ c, c ∈ chars s → c ∈ chars slug_grammar_alphabet)
    as Hplus.
  { assert (Js.test_plus subdomain_char s
            = negb (String.eqb s "") && Js.all_chars subdomain_char s) as ->.
    { by destruct s. }
    rewrite andb_true_iff, negb_true_iff, String.eqb_neq, all_chars_Forall,
      Forall_forall.
    split; intros [Hne Hall]; (split; [done|]); intros c Hc.
    - specialize (Hall c Hc). rewrite subdomain_char_alphabet in Hall.
      by apply bool_decide_eq_true in Hall.
    - rewrite subdomain_char_alphabet. apply bool_decide_eq_true. by apply Hall. }
  rewrite <- Hplus. clear Hplus.
  generalize (Js.test_plus subdomain_char s) (Js.startsWith s "-")
    (Js.endsWith s "-"). intros t a b.
  destruct t; simpl; [|intuition congruence].
  destruct (String.length s <? 3) eqn:H3; simpl.
  { apply Nat.ltb_lt in H3. split; [done | intros (_ & ? & _); lia]. }
  destruct (63 <? String.length s) eqn:H63; simpl.
  { apply Nat.ltb_lt in H63. split; [done | intros (_ & ? & _); lia]. }
  apply Nat.ltb_ge in H3, H63.
  destruct a; simpl; [intuition congruence|].
  destruct b; simpl; [intuition congruence|].
  split; [|done]. intros _. repeat split; try done; lia.
Qed.

(** ** Normalization: the regular-expression replacements and the words *)

Lemma replace_runs_in_run s :
  Js.replace_runs true s = Js.replace_runs false (skip_run s).
Proof.
  induction s as [|c r IH]; [done|].
  cbn [Js.replace_runs skip_run]. rewrite slug_char_outside.
  destruct (outside c) eqn:Hc; cbn [negb].
  - exact IH.
  - cbn [Js.replace_runs]. by rewrite slug_char_outside, Hc.
Qed.

Lemma replace_runs_maximal s :
  Js.replace_runs false s = replace_maximal_runs s.
Proof.
  funelim (replace_maximal_runs s); [done|].
  cbn [Js.replace_runs]. rewrite slug_char_outside.
  destruct (outside c); cbn [negb].
  - rewrite replace_runs_in_run. by f_equal.
  - by f_equal.
Qed.

Lemma replace_runs_no_double_hyphen s :
  no_double_hyphen (Js.replace_runs false s) = true
  ∧ no_double_hyphen (Js.replace_runs true s) = true
  ∧ Js.startsWith (Js.replace_runs true s) "-" = false.
Proof.
  induction s as [|c r (IHf & IHt & IHs)]; [done|].
  cbn [Js.replace_runs].
  destruct (Js.slug_char c) eqn:Hc.
  - apply slug_char_not_hyphen in Hc.
    assert (Ascii.eqb c "-" = false) as Hne by by apply Ascii.eqb_neq.
    cbn [no_double_hyphen]. rewrite Hne, IHf. repeat split.
    change (Js.startsWith (String c (Js.replace_runs false r)) "-")
      with (Ascii.eqb "-" c && true).
    by rewrite Ascii.eqb_sym, Hne.
  - repeat split; [|done..].
    cbn [no_double_hyphen]. by rewrite IHs, IHt.
Qed.

Lemma strip_leading_once s :
  no_double_hyphen s = true →
  strip_leading_hyphens s
  = match s with
    | String c r => if Ascii.eqb c "-" then r else s
    | "" => ""
    end.
Proof.
  destruct s as [|c r]; [done|]. cbn [no_double_hyphen strip_leading_hyphens].
  destruct (Ascii.eqb c "-"); [|done].
  destruct r as [|c' r']; [done|].
  change (Js.startsWith (String c' r') "-") with (Ascii.eqb "-" c' && true).
  rewrite andb_true_r, Ascii.eqb_sym. cbn [strip_leading_hyphens].
  by destruct (Ascii.eqb c' "-").
Qed.

Lemma no_double_hyphen_tail c r :
  no_double_hyphen (String c r) = true → no_double_hyphen r = true.
Proof. cbn [no_double_hyphen]. by intros [_ ?]%andb_true_iff. Qed.

Lemma drop_final_hyphen_nil s :
  Js.drop_final_hyphen s = "" → s = "" ∨ s = "-".
Proof.
  destruct s as [|c [|c' r]]; [by left| |done].
  simpl. destruct (Ascii.eqb c "-") eqn:Hc; [|done].
  apply Ascii.eqb_eq in Hc as ->. by right.
Qed.

Lemma strip_trailing_once s :
  no_double_hyphen s = true →
  strip_trailing_hyphens s = Js.drop_final_hyphen s.
Proof.
  induction s as [|c r IH]; [done|]. intros Hnd.
  specialize (IH (no_double_hyphen_tail _ _ Hnd)).
  cbn [strip_trailing_hyphens]. rewrite IH.
  destruct r as [|c' r'].
  - simpl. by destruct (Ascii.eqb c "-").
  - change (Js.drop_final_hyphen (String c (String c' r')))
      with (String c (Js.drop_final_hyphen (String c' r'))).
    destruct (Ascii.eqb c "-") eqn:Hc; [|done]. cbn [andb].
    destruct (String.eqb (Js.drop_final_hyphen (String c' r')) "") eqn:He;
      [|done].
    apply String.eqb_eq, drop_final_hyphen_nil in He as [He|He]; [done|].
    injection He as -> ->. cbn [no_double_hyphen] in Hnd.
    by rewrite Hc in Hnd.
Qed.

(** The two replacements of the handler compute the normalization of the
    specification. *)
Lemma strip_replace_runs_normalize rawName :
  Js.strip_edge_hyphens (Js.replace_runs false (Js.toLowerCase rawName))
  = normalize_words rawName.
Proof.
  unfold normalize_words.
  rewrite toLowerCase_lowercased, replace_runs_maximal.
  pose proof (replace_runs_no_double_hyphen (lowercased rawName))
    as (Hnd & _). rewrite replace_runs_maximal in Hnd.
  generalize dependent (replace_maximal_runs (lowercased rawName)).
  intros t Hnd. rewrite (strip_leading_once _ Hnd).
  destruct t as [|c r]; [done|]. cbn [Js.strip_edge_hyphens].
  destruct (Ascii.eqb c "-").
  - symmetry. apply strip_trailing_once. by apply no_double_hyphen_tail in Hnd.
  - symmetry. by apply strip_trailing_once.
Qed.

Lemma slugFromName_normalize rawName :
  slugFromName rawName
  = if decide (normalize_words rawName = "") then "site"
    else normalize_words rawName.
Proof.
  unfold slugFromName. rewrite strip_replace_runs_normalize.
  destruct (String.eqb_spec (normalize_words rawName) "") as [He|Hne].
  - by rewrite decide_True.
  - by rewrite decide_False.
Qed.

(** ** Slug derivation and validation in the handler *)

Lemma reaches_slug_check_inv env userId body d :
  reaches_slug_check env userId body d →
  ∃ h user, html body = Some h ∧ h ≠ "" ∧ up_read_ok env = true
            ∧ USERS_FILE d !! userId = Some user.
Proof.
  intros (Hh & Hread & [user Huser]).
  apply truthy_true in Hh as (h & Hh & Hne). by exists h, user.
Qed.

Lemma upload_invalid_slug domains primary env userId body d slug :
  reaches_slug_check env userId body d →
  candidateSlug (siteSlug body) (siteName body) = Some slug →
  validateSubdomain slug = false →
  upload domains primary env userId body d
  = Some (UploadRejected InvalidSlug, d).
Proof.
  intros (h & user & Hh & Hne & Hread & Huser)%reaches_slug_check_inv
    Hcand Hvalid.
  unfold upload. apply String.eqb_neq in Hne. apply get_own in Huser.
  rewrite Hh, Hne, Hread. simpl. by rewrite Huser, Hcand, Hvalid.
Qed.

Lemma not_grammar_invalid slug :
  ¬ slug_grammar slug → validateSubdomain slug = false.
Proof.
  intros Hng. destruct (validateSubdomain slug) eqn:Hv; [|done].
  by apply validateSubdomain_grammar in Hv.
Qed.

(** C6, as the code has it.  When no explicit slug is supplied, the
    candidate slug depends on the raw name only: with the raw name
    lowercased, every maximal run of characters outside [[a-z0-9]]
    replaced by one hyphen and the leading and trailing hyphens stripped,
    the candidate is that string when it is not empty, and the literal
    [site] when it is empty, which is the case of the empty raw name. *)
Theorem candidate_slug_from_name siteSlug rawName :
  Js.truthy siteSlug = false →
  (normalize_words rawName ≠ "" →
   candidateSlug siteSlug (Some rawName) = Some (normalize_words rawName))
  ∧ (normalize_words rawName = "" →
     candidateSlug siteSlug (Some rawName) = Some "site")
  ∧ (rawName = "" → candidateSlug siteSlug (Some rawName) = Some "site").
Proof.
  intros Hslug. unfold candidateSlug. rewrite Hslug, slugFromName_normalize.
  split; [|split].
  - intros Hne. by rewrite decide_False.
  - intros He. by rewrite decide_True.
  - intros ->. by rewrite decide_True.
Qed.

Lemma candidate_slug_from_name_witness :
  Js.truthy None = false
  ∧ (normalize_words "My Cool  Site!" ≠ "" →
     candidateSlug None (Some "My Cool  Site!")
     = Some (normalize_words "My Cool  Site!"))
  ∧ (normalize_words "My Cool  Site!" = "" →
     candidateSlug None (Some "My Cool  Site!") = Some "site")
  ∧ ("My Cool  Site!" = "" →
     candidateSlug None (Some "My Cool  Site!") = Some "site").
Proof.
  split; [reflexivity|].
  apply (candidate_slug_from_name None "My Cool  Site!"). reflexivity.
Defined.

(** The raw name [!!!] is not empty, its normalization is empty, and the
    candidate slug is [site], not the normalization. *)
Lemma candidate_slug_punctuation :
  "!!!" ≠ ""
  ∧ normalize_words "!!!" = ""
  ∧ candidateSlug None (Some "!!!") = Some "site"
  ∧ candidateSlug None (Some "!!!") ≠ Some (normalize_words "!!!").
Proof. by vm_compute. Qed.

(** The result of the loop, with the suffix spelled out. *)
Lemma uniqueSlug_first_free_suffix :
  ∀ (c : string) (sites : list Site),
    ∃ r, uniqueSlug c sites = Some r
      ∧ (r ∉ slugs sites)
      ∧ (c ∉ slugs sites → r = c)
      ∧ (c ∈ slugs sites → ∃ k, 1 ≤ k ∧ r = c +:+ "-" +:+ pretty k).
Proof.
  intros c sites.
  destruct (uniqueSlug_first_free c sites) as (m & Hrun & Hfree & Hbelow).
  exists (attempt c m). split; [done|]. split; [done|]. split.
  - intros Hc. destruct m as [|m]; [done|].
    destruct Hc. apply (Hbelow 0). lia.
  - intros Hc. destruct m as [|m]; [done|].
    exists (S m). split; [lia | done].
Qed.

(** The candidate slug when no explicit slug is supplied. *)
Lemma candidateSlug_derived siteSlug rawName :
  Js.truthy siteSlug = false →
  candidateSlug siteSlug (Some rawName)
  = Some (if decide (normalize_words rawName = "") then "site"
          else normalize_words rawName).
Proof.
  intros Hslug. unfold candidateSlug.
  by rewrite Hslug, slugFromName_normalize.
Qed.

Lemma site_valid : validateSubdomain "site" = true.
Proof. reflexivity. Qed.

(** C5, as the code has it.  A request that has content and comes from a
    user of the store, and whose candidate slug (the explicit slug when
    one is supplied, otherwise the raw name normalized, or [site] when the
    normalization is empty) does not match [^[a-zA-Z0-9-]+$], or has a
    length outside [3, 63], or starts or ends with a hyphen, is rejected
    with [InvalidSlug] and nothing is written.  This is the case of the
    explicit slug [Ab], and of a raw name whose normalization is not empty
    and shorter than 3 characters.  A raw name whose normalization is the
    empty string is not rejected: without an explicit slug its candidate
    is [site], and when the file system cooperates the site is published,
    under [site] when the user has no site of that slug and under
    [site-k] for a positive [k] otherwise. *)
Theorem invalid_candidate_rejected domains primary env userId body d :
  reaches_slug_check env userId body d →
  (∀ slug,
      candidateSlug (siteSlug body) (siteName body) = Some slug →
      ¬ slug_grammar slug →
      upload domains primary env userId body d
      = Some (UploadRejected InvalidSlug, d))
  ∧ (siteSlug body = Some "Ab" →
     upload domains primary env userId body d
     = Some (UploadRejected InvalidSlug, d))
  ∧ (∀ rawName,
      Js.truthy (siteSlug body) = false → siteName body = Some rawName →
      normalize_words rawName ≠ "" →
      String.length (normalize_words rawName) < 3 →
      upload domains primary env userId body d
      = Some (UploadRejected InvalidSlug, d))
  ∧ (∀ rawName user,
      Js.truthy (siteSlug body) = false → siteName body = Some rawName →
      normalize_words rawName = "" →
      USERS_FILE d !! userId = Some user →
      candidateSlug (siteSlug body) (siteName body) = Some "site"
      ∧ (up_io_ok env →
         ∃ r d',
           upload domains primary env userId body d = Some (Published r, d')
           ∧ ("site" ∉ slugs (user_sites user) → ok_slug r = "site")
           ∧ ("site" ∈ slugs (user_sites user) →
              ∃ k, 1 ≤ k ∧ ok_slug r = "site" +:+ "-" +:+ pretty k))).
Proof.
  intros Hreach. split; [|split; [|split]].
  - intros slug Hcand Hng.
    by apply (upload_invalid_slug _ _ _ _ _ _ slug), not_grammar_invalid.
  - intros Hs. apply (upload_invalid_slug _ _ _ _ _ _ "Ab"); [done| |done].
    by rewrite Hs.
  - intros rawName Hs Hn Hne Hlen.
    apply (upload_invalid_slug _ _ _ _ _ _ (normalize_words rawName));
      [done| |].
    + rewrite Hn, candidateSlug_derived by done. by rewrite decide_False.
    + apply not_grammar_invalid. intros (_ & ? & _). lia.
  - intros rawName user Hs Hn Hempty Huser.
    assert (candidateSlug (siteSlug body) (siteName body) = Some "site")
      as Hcand.
    { rewrite Hn, candidateSlug_derived by done. by rewrite decide_True. }
    split; [done|]. intros Hio.
    destruct (reaches_slug_check_inv _ _ _ _ Hreach)
      as (h & _ & Hh & Hne & _ & _).
    destruct (uniqueSlug_first_free_suffix "site" (user_sites user))
      as (finalSlug & Huniq & _ & Hfree & Htaken).
    destruct (upload_succeeds domains primary env userId body d h user "site"
                finalSlug Hh Hne Hio Huser Hcand site_valid Huniq)
      as (r & d' & Hup & <-).
    by exists r, d'.
Qed.

Lemma invalid_candidate_rejected_witness :
  (reaches_slug_check all_ok_env "u1" short_slug_body one_user_disk
   ∧ candidateSlug (siteSlug short_slug_body) (siteName short_slug_body)
     = Some "Ab"
   ∧ ¬ slug_grammar "Ab"
   ∧ upload Deployment.SUPPORTED_DOMAINS Deployment.PRIMARY_DOMAIN all_ok_env
       "u1" short_slug_body one_user_disk
     = Some (UploadRejected InvalidSlug, one_user_disk))
  ∧ (reaches_slug_check all_ok_env "u1" punctuation_name_body one_user_disk
     ∧ normalize_words "!!!" = ""
     ∧ ∃ r d',
         upload Deployment.SUPPORTED_DOMAINS Deployment.PRIMARY_DOMAIN
           all_ok_env "u1" punctuation_name_body one_user_disk
         = Some (Published r, d')
         ∧ ("site" ∉ slugs (user_sites fresh_user) → ok_slug r = "site")
         ∧ ("site" ∈ slugs (user_sites fresh_user) →
            ∃ k, 1 ≤ k ∧ ok_slug r = "site" +:+ "-" +:+ pretty k)).
Proof.
  assert (reaches_slug_check all_ok_env "u1" short_slug_body one_user_disk)
    as Hreach.
  { split; [reflexivity|]. split; [reflexivity|]. by eexists. }
  assert (reaches_slug_check all_ok_env "u1" punctuation_name_body
            one_user_disk) as Hreach'.
  { split; [reflexivity|]. split; [reflexivity|]. by eexists. }
  assert (¬ slug_grammar "Ab") as Hshort.
  { intros (_ & Hlen & _). simpl in Hlen. lia. }
  split.
  - split; [exact Hreach|]. split; [reflexivity|]. split; [exact Hshort|].
    apply (proj1 (invalid_candidate_rejected Deployment.SUPPORTED_DOMAINS
                    Deployment.PRIMARY_DOMAIN all_ok_env "u1" short_slug_body
                    one_user_disk Hreach) "Ab").
    + reflexivity.
    + exact Hshort.
  - split; [exact Hreach'|]. split; [by vm_compute|].
    apply (proj2 (proj2 (proj2
             (invalid_candidate_rejected Deployment.SUPPORTED_DOMAINS
                Deployment.PRIMARY_DOMAIN all_ok_env "u1"
                punctuation_name_body one_user_disk Hreach')))
             "!!!" fresh_user).
    + reflexivity.
    + reflexivity.
    + by vm_compute.
    + reflexivity.
    + repeat split.
Defined.

(** The raw name [!!!] normalizes to the empty string, which is not a
    valid slug, and the upload is published under the slug [site]. *)
Lemma collapsed_name_published :
  normalize_words "!!!" = ""
  ∧ ¬ slug_grammar (normalize_words "!!!")
  ∧ ∃ r d',
      upload Deployment.SUPPORTED_DOMAINS Deployment.PRIMARY_DOMAIN
        all_ok_env "u1" punctuation_name_body one_user_disk
      = Some (Published r, d')
      ∧ ok_slug r = "site".
Proof.
  split; [by vm_compute|]. split.
  - intros ((Hne & _) & _). by apply Hne.
  - eexists _, _. split; [reflexivity|]. by vm_compute.
Qed.

(** ** Explicit slugs *)

(** C10, as the code has it.  An explicit slug that matches the validation
    grammar is not normalized: it is handed unchanged, case preserved, to
    the uniqueness loop.  When the user has no site with that slug it is
    the slug of the new site; otherwise the slug of the new site is the
    explicit slug followed by [-k] for a positive [k].  The URL generated
    for each configured domain [dom] is
    [https://{subdomain}-{slug of the new site}.{dom}], so the explicit
    slug appears in it as it was written. *)
Theorem explicit_slug_verbatim domains primary env userId body d user s :
  Js.truthy (html body) = true → up_io_ok env →
  USERS_FILE d !! userId = Some user →
  siteSlug body = Some s → slug_grammar s →
  ∃ r d',
    upload domains primary env userId body d = Some (Published r, d')
    ∧ site_slug (ok_site r) = ok_slug r
    ∧ (s ∉ slugs (user_sites user) → ok_slug r = s)
    ∧ (s ∈ slugs (user_sites user) →
       ∃ k, 1 ≤ k ∧ ok_slug r = s +:+ "-" +:+ pretty k)
    ∧ ∀ dom, dom ∈ domains →
        ok_urls r !! dom
        = Some ("https://" +:+ user_subdomain user +:+ "-" +:+ ok_slug r
                +:+ "." +:+ dom).
Proof.
  intros (h & Hh & Hne)%truthy_true Hio Huser Hs Hgrammar.
  assert (s ≠ "") as Hsne by apply Hgrammar.
  destruct (uniqueSlug_first_free_suffix s (user_sites user))
    as (final & Huniq & Hfree & Hsame & Hsuffix).
  destruct (upload_succeeds domains primary env userId body d h user s final)
    as (r & d' & Hup & Hslug); try done.
  { rewrite Hs. by apply candidateSlug_explicit. }
  { by apply validateSubdomain_grammar. }
  exists r, d'. split; [done|].
  destruct (upload_Published _ _ _ _ _ _ _ _ Hup)
    as (h' & u & slug & user' & _ & _ & _ & Hu & _ & _ & _ & Hurls & _ & _
        & _ & Hsite & _).
  assert (u = user) as -> by congruence.
  rewrite Hslug. split; [by rewrite Hsite|]. split; [done|]. split; [done|].
  intros dom Hdom. rewrite Hurls, Hslug, lookup_generateSiteUrls.
  by rewrite decide_True.
Qed.

Lemma explicit_slug_verbatim_witness :
  slug_grammar "MyPage"
  ∧ ∃ r d',
      upload Deployment.SUPPORTED_DOMAINS Deployment.PRIMARY_DOMAIN
        all_ok_env "u1" mixed_case_body one_user_disk
      = Some (Published r, d')
      ∧ site_slug (ok_site r) = ok_slug r
      ∧ ("MyPage" ∉ slugs (user_sites fresh_user) → ok_slug r = "MyPage")
      ∧ ("MyPage" ∈ slugs (user_sites fresh_user) →
         ∃ k, 1 ≤ k ∧ ok_slug r = "MyPage" +:+ "-" +:+ pretty k)
      ∧ ∀ dom, dom ∈ Deployment.SUPPORTED_DOMAINS →
          ok_urls r !! dom
          = Some ("https://" +:+ user_subdomain fresh_user +:+ "-"
                  +:+ ok_slug r +:+ "." +:+ dom).
Proof.
  assert (slug_grammar "MyPage") as Hgrammar.
  { apply validateSubdomain_grammar. reflexivity. }
  split; [exact Hgrammar|].
  apply (explicit_slug_verbatim Deployment.SUPPORTED_DOMAINS
           Deployment.PRIMARY_DOMAIN all_ok_env "u1" mixed_case_body
           one_user_disk fresh_user "MyPage").
  - reflexivity.
  - repeat split.
  - reflexivity.
  - reflexivity.
  - exact Hgrammar.
Defined.

(** A user publishes the explicit slug [MyPage] twice: the second site
    gets the slug [MyPage-1], not the explicit slug. *)
Lemma explicit_slug_taken :
  slug_grammar "MyPage"
  ∧ ∃ r1 d1 r2 d2,
      upload Deployment.SUPPORTED_DOMAINS Deployment.PRIMARY_DOMAIN
        all_ok_env "u1" mixed_case_body one_user_disk
      = Some (Published r1, d1)
      ∧ upload Deployment.SUPPORTED_DOMAINS Deployment.PRIMARY_DOMAIN
          all_ok_env "u1" mixed_case_body d1
        = Some (Published r2, d2)
      ∧ ok_slug r2 = "MyPage-1"
      ∧ ok_slug r2 ≠ "MyPage".
Proof.
  split; [apply validateSubdomain_grammar; reflexivity|].
  eexists _, _, _, _. split; [reflexivity|]. split; [reflexivity|].
  by vm_compute.
Qed.

(** ** Subdomain identities across users *)

Lemma all_chars_app cls a b :
  Js.all_chars cls (a +:+ b) = Js.all_chars cls a && Js.all_chars cls b.
Proof.
  induction a as [|c a IH]; simpl; [done|].
  by rewrite IH, andb_assoc.
Qed.

Lemma hyphen_free_app a b :
  hyphen_free (a +:+ b) = hyphen_free a && hyphen_free b.
Proof. apply all_chars_app. Qed.

Lemma hyphen_inside a b : hyphen_free (a +:+ String "-" b) = false.
Proof. rewrite hyphen_free_app. cbn. apply andb_false_r. Qed.

(** The decimal digits of a number hold no hyphen. *)
Lemma pretty_N_go_hyphen_free (x : N) (s : string) :
  hyphen_free s = true → hyphen_free (pretty_N_go x s) = true.
Proof.
  revert s. induction x as [x IH] using (well_founded_induction N.lt_wf_0).
  intros s Hs. destruct (decide (x = 0%N)) as [->|Hx].
  - by rewrite pretty_N_go_0.
  - rewrite pretty_N_go_step by lia. apply IH.
    + apply N.div_lt; lia.
    + unfold hyphen_free. cbn [Js.all_chars]. fold (hyphen_free s).
      rewrite Hs, andb_true_r. unfold pretty_N_char.
      by repeat case_match.
Qed.

Lemma pretty_nat_hyphen_free (n : nat) : hyphen_free (pretty n) = true.
Proof.
  unfold pretty, pretty_nat, pretty, pretty_N.
  case_decide; [done|]. by apply pretty_N_go_hyphen_free.
Qed.

Lemma word_at_hyphen_free words i :
  Forall (λ w, hyphen_free w = true) words →
  hyphen_free (word_at words i) = true.
Proof.
  intros Hall. unfold word_at.
  destruct (nth_in_or_default i words "undefined") as [Hin | ->]; [|done].
  rewrite Forall_forall in Hall. apply Hall. by apply list_elem_of_In.
Qed.

Lemma generateSubdomain_named r username :
  ∃ w, generateSubdomain r username = username +:+ "-" +:+ w
       ∧ hyphen_free w = true.
Proof.
  unfold generateSubdomain. eexists. split; [done|].
  rewrite !hyphen_free_app, pretty_nat_hyphen_free.
  rewrite !word_at_hyphen_free; [done|..];
    by repeat (constructor; [done|]).
Qed.

(** The text before the last hyphen is determined by the whole. *)
Lemma hyphen_split_inj a b w w' :
  hyphen_free w = true → hyphen_free w' = true →
  a +:+ "-" +:+ w = b +:+ "-" +:+ w' → a = b.
Proof.
  intros Hw Hw'. revert b.
  induction a as [|c a IH]; intros [|c' b] Heq; simpl in Heq.
  - done.
  - injection Heq as <- ->. by rewrite hyphen_inside in Hw.
  - injection Heq as -> <-. by rewrite hyphen_inside in Hw'.
  - injection Heq as -> Heq. f_equal. by apply IH.
Qed.

Lemma someUser_false p (users : gmap string User) :
  someUser p users = false ↔ ∀ i u, users !! i = Some u → p u = false.
Proof.
  unfold someUser. split.
  - intros Hnone i u Hu. destruct (p u) eqn:Hp; [|done].
    rewrite <- Hnone. symmetry. apply existsb_exists. exists u.
    split; [|done]. apply list_elem_of_In, list_elem_of_fmap.
    exists (i, u). split; [done|]. by apply elem_of_map_to_list.
  - intros Hall. apply not_true_iff_false. intros Hex.
    apply existsb_exists in Hex as (u & Hin & Hp).
    apply list_elem_of_In, list_elem_of_fmap in Hin as ([i u'] & -> & Hin).
    apply elem_of_map_to_list in Hin. simpl in Hp.
    by rewrite (Hall i u' Hin) in Hp.
Qed.

(** A registration leaves [users.json] alone or adds one record, under a
    username that no record of the store it read has. *)
Lemma register_store env body d :
  USERS_FILE (register env body d).2 = USERS_FILE d
  ∨ ∃ name users0 user,
      (users0 = USERS_FILE d ∨ users0 = ∅)
      ∧ (∀ i u, users0 !! i = Some u → user_username u ≠ name)
      ∧ user_username user = name
      ∧ user_subdomain user = generateSubdomain (reg_draw env) name
      ∧ USERS_FILE (register env body d).2
        = <[reg_userId env := user]> users0.
Proof.
  unfold register.
  destruct (username body) as [name|]; [|by left].
  destruct (email body) as [mail|]; [|by left].
  destruct (password body) as [pass|]; [|by left].
  destruct (_ || _); [by left|].
  destruct (negb (validateUsername name)); [by left|].
  destruct (String.length pass <? 6); [by left|].
  set (users0 := if reg_read_ok env then USERS_FILE d else ∅).
  destruct (someUser _ users0) eqn:Hname; [by left|].
  destruct (someUser (λ user, String.eqb (user_email user) mail) users0);
    [by left|].
  destruct (negb (reg_write_ok env)); [by left|].
  right.
  exists name, users0,
    (Build_User (reg_userId env) name mail (reg_hashedPassword env)
       (reg_now env) (generateSubdomain (reg_draw env) name) []).
  split.
  { unfold users0. destruct (reg_read_ok env); [by left | by right]. }
  split.
  { intros i u Hu. rewrite someUser_false in Hname.
    by apply String.eqb_neq, (Hname i). }
  split; [done|]. split; [done|].
  by destruct (negb (reg_mkdir_ok env)).
Qed.

(** An upload leaves [users.json] alone or replaces the record of the
    user by one with the same username and subdomain. *)
Lemma upload_store domains primary env userId body d resp d' :
  upload domains primary env userId body d = Some (resp, d') →
  USERS_FILE d' = USERS_FILE d
  ∨ ∃ user user',
      USERS_FILE d !! userId = Some user
      ∧ user_username user' = user_username user
      ∧ user_subdomain user' = user_subdomain user
      ∧ USERS_FILE d' = <[userId := user']> (USERS_FILE d).
Proof.
  destruct resp as [e|r]; intros Hup.
  - left. revert Hup. unfold upload.
    destruct (html body) as [h|]; [|by intros [= _ <-]].
    destruct (String.eqb h ""); [by intros [= _ <-]|].
    destruct (negb (up_read_ok env)); [by intros [= _ <-]|].
    destruct (Js.get (USERS_FILE d) userId) as [user|key|];
      [..|by intros [= _ <-]];
      (destruct (candidateSlug (siteSlug body) (siteName body)) as [slug|];
       [|by intros [= _ <-]]);
      (destruct (negb (validateSubdomain slug)); [by intros [= _ <-]|]);
      [|by intros [= _ <-]].
    destruct (uniqueSlug slug (user_sites user)) as [finalSlug|]; [|done].
    destruct (negb (up_mkdir_ok env)); [by intros [= _ <-]|].
    destruct (negb (up_write_page_ok env)); [by intros [= _ <-]|].
    destruct (negb (up_write_users_ok env)); [by intros [= _ <-]|done].
  - right.
    destruct (upload_Published _ _ _ _ _ _ _ _ Hup)
      as (h & user & slug & user' & _ & _ & _ & Hu & _ & _ & _ & _ & _ & _
          & _ & _ & Hfile & _ & Hsub & Hname & _).
    by exists user, user'.
Qed.

Lemma store_inv_empty : store_inv ∅.
Proof. split; intros i; intros; by rewrite lookup_empty in *. Qed.

Lemma store_inv_insert_new users i user :
  store_inv users → named_by_username user →
  (∀ j u, users !! j = Some u → user_username u ≠ user_username user) →
  store_inv (<[i := user]> users).
Proof.
  intros [Hnamed Hdistinct] Hnew Hfresh. split.
  - intros j u. rewrite lookup_insert. case_decide; [by intros [= <-]|].
    apply Hnamed.
  - intros j k u v Hu Hv Hne.
    destruct (decide (i = j)) as [<-|Hij], (decide (i = k)) as [<-|Hik].
    + done.
    + rewrite lookup_insert_eq in Hu. rewrite lookup_insert_ne in Hv by done.
      injection Hu as <-. intros Heq. by apply (Hfresh k v).
    + rewrite lookup_insert_eq in Hv. rewrite lookup_insert_ne in Hu by done.
      injection Hv as <-. by apply (Hfresh j u).
    + rewrite lookup_insert_ne in Hu, Hv by done. by apply (Hdistinct j k).
Qed.

Lemma store_inv_insert_same users i user user' :
  store_inv users → users !! i = Some user →
  user_username user' = user_username user →
  user_subdomain user' = user_subdomain user →
  store_inv (<[i := user']> users).
Proof.
  intros [Hnamed Hdistinct] Hi Hname Hsub. split.
  - intros j u. rewrite lookup_insert. case_decide; [|apply Hnamed].
    intros [= <-]. destruct (Hnamed i user Hi) as (w & Hw & Hfree).
    exists w. by rewrite Hname, Hsub.
  - intros j k u v Hu Hv Hne.
    destruct (decide (i = j)) as [<-|Hij], (decide (i = k)) as [<-|Hik].
    + done.
    + rewrite lookup_insert_eq in Hu. rewrite lookup_insert_ne in Hv by done.
      injection Hu as <-. rewrite Hname. by apply (Hdistinct i k).
    + rewrite lookup_insert_eq in Hv. rewrite lookup_insert_ne in Hu by done.
      injection Hv as <-. rewrite Hname. by apply (Hdistinct j i).
    + rewrite lookup_insert_ne in Hu, Hv by done. by apply (Hdistinct j k).
Qed.

Lemma reachable_store_inv domains primary d :
  reachable domains primary d → store_inv (USERS_FILE d).
Proof.
  induction 1 as [|env body d _ IH|env userId body d r d' _ IH Hup].
  - apply store_inv_empty.
  - destruct (register_store env body d)
      as [-> | (name & users0 & user & Hread & Hfresh & Hname & Hsub & ->)];
      [done|].
    apply store_inv_insert_new.
    + by destruct Hread as [-> | ->]; [|apply store_inv_empty].
    + destruct (generateSubdomain_named (reg_draw env) name) as (w & Hw & ?).
      exists w. by rewrite Hname, Hsub.
    + by rewrite Hname.
  - destruct (upload_store _ _ _ _ _ _ _ _ Hup)
      as [-> | (user & user' & Hu & Hname & Hsub & ->)]; [done|].
    by apply (store_inv_insert_same _ _ user).
Qed.




(** ** Asset weaving *)

Lemma getSubstitution_dollar_free matched before rest templ :
  dollar_free templ = true →
  Js.getSubstitution matched before rest templ = templ.
Proof.
  induction templ as [|c r IH]; [done|].
  unfold dollar_free. cbn [Js.all_chars Js.getSubstitution].
  intros [Hc Hr]%andb_true_iff. apply negb_true_iff in Hc.
  rewrite Hc. f_equal. by apply IH.
Qed.

Lemma dollar_free_app a b :
  dollar_free (a +:+ b) = dollar_free a && dollar_free b.
Proof. apply all_chars_app. Qed.

Lemma replace_dollar_free doc marker templ :
  dollar_free templ = true →
  Js.replace doc marker templ
  = match Js.find_first marker doc with
    | Some (before, rest) => before +:+ templ +:+ rest
    | None => doc
    end.
Proof.
  intros Hfree. unfold Js.replace.
  destruct (Js.find_first marker doc) as [[before rest]|]; [|done].
  by rewrite getSubstitution_dollar_free.
Qed.

(** An asset whose marker is not in the document leaves it as it is. *)
Lemma weaveOne_no_marker asset marker template doc :
  Js.find_first marker doc = None →
  weaveOne asset marker template doc = doc.
Proof.
  intros Hnone. unfold weaveOne, Js.replace. rewrite Hnone.
  destruct asset as [a|]; [|done]. by destruct (String.eqb a "").
Qed.

(** With assets that hold no dollar sign, the handler stores the document
    of the specification. *)
Lemma weave_dollar_free html favicon css js :
  asset_dollar_free favicon = true → asset_dollar_free css = true →
  asset_dollar_free js = true →
  weave html favicon css js = weave_words html favicon css js.
Proof.
  intros Hf Hc Hj. unfold weave, weave_words.
  assert (∀ asset marker template insert doc,
            asset_dollar_free asset = true →
            (∀ a, dollar_free a = true →
                  Js.replace doc marker (template a) = insert a doc) →
            weaveOne asset marker template doc
            = when_supplied asset insert doc) as Hone.
  { intros [a|] marker template insert doc Hfree Hrep; [|done]. simpl.
    destruct (String.eqb a ""); [done|]. by apply Hrep. }
  rewrite (Hone favicon _ _ (λ a, insert_after "<head>" (favicon_link a)));
    [|done|].
  2:{ intros a Ha. rewrite replace_dollar_free.
      - unfold insert_after. by destruct (Js.find_first _ _) as [[??]|].
      - unfold faviconTemplate. by rewrite !dollar_free_app, Ha. }
  rewrite (Hone css _ _ (λ a, insert_before "</head>" (style_block a)));
    [|done|].
  2:{ intros a Ha. rewrite replace_dollar_free.
      - unfold insert_before, style_block, cssTemplate.
        destruct (Js.find_first _ _) as [[??]|]; [|done].
        by rewrite !string_app_assoc.
      - unfold cssTemplate. by rewrite !dollar_free_app, Ha. }
  apply Hone; [done|].
  intros a Ha. rewrite replace_dollar_free.
  - unfold insert_before, script_block, jsTemplate.
    destruct (Js.find_first _ _) as [[??]|]; [|done].
    by rewrite !string_app_assoc.
  - unfold jsTemplate. by rewrite !dollar_free_app, Ha.
Qed.

(** C8, at a request whose script holds the text [$'].  The stored page is
    not the submitted HTML with the script block before the body closes:
    in the block, the two characters [$'] are replaced by the text that
    follows the closing body tag in the submitted HTML. *)
Theorem weave_expands_dollar_patterns :
  weave_words "<html><head></head><body></body></html>" None None
    (Some price_script)
  = "<html><head></head><body><script>var price = '$' + 5;</script></body></html>"
  ∧ ∃ r d',
      upload Deployment.SUPPORTED_DOMAINS Deployment.PRIMARY_DOMAIN
        all_ok_env "u1" price_script_body one_user_disk
      = Some (Published r, d')
      ∧ files d' !! ["alice-quickweb42"; "shop"; "index.html"]
        = Some "<html><head></head><body><script>var price = '</html> + 5;</script></body></html>"
      ∧ files d' !! ["alice-quickweb42"; "shop"; "index.html"]
        ≠ Some (weave_words "<html><head></head><body></body></html>" None
                  None (Some price_script)).
Proof.
  split; [by vm_compute|].
  eexists _, _. split; [reflexivity|]. by vm_compute.
Qed.

(** * Further properties of the handlers *)

(** ** What one call does to the disk *)

(** The path of an upload through the handler: it stops before the
    directory is made, or after it, or after the page is written, or it
    completes. *)
Lemma upload_trace domains primary env userId body d resp d' :
  upload domains primary env userId body d = Some (resp, d') →
  (d' = d ∧ ∃ e, resp = UploadRejected e)
  ∨ ∃ h user slug finalSlug,
      html body = Some h
      ∧ USERS_FILE d !! userId = Some user
      ∧ candidateSlug (siteSlug body) (siteName body) = Some slug
      ∧ validateSubdomain slug = true
      ∧ uniqueSlug slug (user_sites user) = Some finalSlug
      ∧ ((d' = mkdir [user_subdomain user; finalSlug] d
          ∧ resp = UploadRejected UploadFailed)
         ∨ (d' = writeFile [user_subdomain user; finalSlug; "index.html"]
                   (weave h (favicon body) (css body) (js body))
                   (mkdir [user_subdomain user; finalSlug] d)
            ∧ resp = UploadRejected UploadFailed)
         ∨ ∃ r,
             resp = Published r
             ∧ ok_slug r = finalSlug
             ∧ ok_site r
               = {| site_id := up_siteId env;
                    site_name := Js.or_else (siteName body) "Untitled Site";
                    site_slug := finalSlug;
                    site_domain := Js.or_else (preferredDomain body) primary;
                    site_urls :=
                      generateSiteUrls domains (user_subdomain user)
                        finalSlug;
                    site_createdAt := up_createdAt env;
                    site_updatedAt := up_updatedAt env;
                    site_visits := 0;
                    site_published := true |}
             ∧ ok_urls r
               = generateSiteUrls domains (user_subdomain user) finalSlug
             ∧ ok_domain r = Js.or_else (preferredDomain body) primary
             ∧ ok_url r = Js.get (ok_urls r) (ok_domain r)
             ∧ ok_primaryUrl r = Js.get (ok_urls r) primary
             ∧ d' = writeUsers
                      (<[userId := withSite user (ok_site r)]> (USERS_FILE d))
                      (writeFile
                         [user_subdomain user; finalSlug; "index.html"]
                         (weave h (favicon body) (css body) (js body))
                         (mkdir [user_subdomain user; finalSlug] d))).
Proof.
  unfold upload. intros Hup.
  destruct (html body) as [h|]; [|left; injection Hup as <- <-; by eauto].
  destruct (String.eqb h ""); [left; injection Hup as <- <-; by eauto|].
  destruct (negb (up_read_ok env)); [left; injection Hup as <- <-; by eauto|].
  destruct (Js.get (USERS_FILE d) userId) as [user|key|] eqn:Huser;
    [..|left; injection Hup as <- <-; by eauto];
    (destruct (candidateSlug (siteSlug body) (siteName body)) as [slug|]
       eqn:Hcand; [|left; injection Hup as <- <-; by eauto]);
    (destruct (validateSubdomain slug) eqn:Hvalid; simpl in Hup;
     [|left; injection Hup as <- <-; by eauto]);
    [|left; injection Hup as <- <-; by eauto].
  apply get_Own in Huser.
  destruct (uniqueSlug slug (user_sites user)) as [finalSlug|] eqn:Huniq;
    [|done].
  destruct (negb (up_mkdir_ok env)); [left; injection Hup as <- <-; by eauto|].
  right. exists h, user, slug, finalSlug. repeat (split; [done|]).
  destruct (negb (up_write_page_ok env)); [left; by injection Hup as <- <-|].
  destruct (negb (up_write_users_ok env)); [right; left; by injection Hup as <- <-|].
  right. right. injection Hup as <- <-. by eexists.
Qed.

(** A registration leaves the files alone, adds at most one directory,
    and leaves [users.json] alone or writes it with one more record. *)
Lemma register_trace env body d :
  files (register env body d).2 = files d
  ∧ dirs d ⊆ dirs (register env body d).2
  ∧ (USERS_FILE (register env body d).2 = USERS_FILE d
     ∨ ∃ name mail pass users0,
         username body = Some name ∧ email body = Some mail
         ∧ password body = Some pass
         ∧ validateUsername name = true
         ∧ (users0 = USERS_FILE d ∨ users0 = ∅)
         ∧ (∀ i u, users0 !! i = Some u → user_username u ≠ name)
         ∧ (∀ i u, users0 !! i = Some u → user_email u ≠ mail)
         ∧ USERS_FILE (register env body d).2
           = <[reg_userId env :=
                 {| user_id := reg_userId env;
                    user_username := name;
                    user_email := mail;
                    user_password := reg_hashedPassword env;
                    user_createdAt := reg_now env;
                    user_subdomain := generateSubdomain (reg_draw env) name;
                    user_sites := [] |}]> users0).
Proof.
  unfold register.
  destruct (username body) as [name|]; [|by auto].
  destruct (email body) as [mail|]; [|by auto].
  destruct (password body) as [pass|]; [|by auto].
  destruct (_ || _); [by auto|].
  destruct (validateUsername name) eqn:Hvalid; [|by auto]. cbn [negb].
  destruct (String.length pass <? 6); [by auto|].
  set (users0 := if reg_read_ok env then USERS_FILE d else ∅).
  destruct (someUser _ users0) eqn:Hname; [by auto|].
  destruct (someUser (λ user, String.eqb (user_email user) mail) users0)
    eqn:Hmail; [by auto|].
  destruct (negb (reg_write_ok env)); [by auto|].
  assert (∀ X : gset (list string), X ⊆ X) as Hrefl by done.
  split; [by destruct (negb (reg_mkdir_ok env))|].
  split.
  { destruct (negb (reg_mkdir_ok env)); simpl; [done|].
    apply union_subseteq_l. }
  right. exists name, mail, pass, users0.
  repeat (split; [done|]). split.
  { unfold users0. destruct (reg_read_ok env); [by left | by right]. }
  split.
  { intros i u Hu. rewrite someUser_false in Hname.
    by apply String.eqb_neq, (Hname i). }
  split.
  { intros i u Hu. rewrite someUser_false in Hmail.
    by apply String.eqb_neq, (Hmail i). }
  by destruct (negb (reg_mkdir_ok env)).
Qed.

Lemma uniqueSlug_free slug sites finalSlug :
  uniqueSlug slug sites = Some finalSlug → finalSlug ∉ slugs sites.
Proof.
  destruct (uniqueSlug_first_free slug sites) as (m & -> & Hfree & _).
  by intros [= <-].
Qed.

Lemma slugs_withSite user site :
  slugs (user_sites (withSite user site))
  = slugs (user_sites user) ++ [site_slug site].
Proof. unfold slugs. simpl. by rewrite fmap_app. Qed.

(** The sample store is the one the two handlers produce. *)
Lemma bob_disk_registered :
  register bob_env bob_body initial_disk
  = (Registered "token" bob,
     {| USERS_FILE := {[ "u9" := bob ]}; dirs := {[ ["bob-quicksite1"] ]};
        files := ∅ |}).
Proof. by vm_compute. Qed.

Lemma bob_published :
  ∃ r, upload Deployment.SUPPORTED_DOMAINS Deployment.PRIMARY_DOMAIN
         all_ok_env "u9" test_body bob_disk
       = Some (Published r, bob_published_disk)
       ∧ ok_site r = bob_site.
Proof. eexists. split; by vm_compute. Qed.

Lemma bob_published_reachable :
  reachable Deployment.SUPPORTED_DOMAINS Deployment.PRIMARY_DOMAIN
    bob_published_disk.
Proof.
  destruct bob_published as (r & Hup & _).
  eapply reachable_upload; [|exact Hup].
  apply reachable_register, reachable_initial.
Qed.

Lemma reachable_after_upload domains primary env userId body d :
  reachable domains primary d →
  reachable domains primary (after_upload domains primary env userId body d).
Proof.
  intros Hreach. unfold after_upload.
  destruct (upload domains primary env userId body d) as [[r d']|] eqn:Hup;
    [|done].
  by eapply reachable_upload.
Qed.

Lemma bob_domains_reachable :
  reachable Deployment.SUPPORTED_DOMAINS Deployment.PRIMARY_DOMAIN
    bob_domains_disk.
Proof.
  do 4 apply reachable_after_upload. apply bob_published_reachable.
Qed.

Lemma two_homes_reachable :
  reachable Deployment.SUPPORTED_DOMAINS Deployment.PRIMARY_DOMAIN
    two_homes_disk.
Proof.
  apply reachable_after_upload, reachable_after_upload, reachable_register,
    reachable_register, reachable_initial.
Qed.

Lemma bob_site_recorded :
  recorded bob_published_disk "u9" (withSite bob bob_site) bob_site.
Proof.
  split; [apply lookup_singleton_eq|]. simpl. by left.
Qed.

(** ** Sites of a user *)

(** X1. In every state the server reaches, the sites of a user have
    pairwise different slugs. *)
Theorem reachable_slugs_unique domains primary d i u :
  reachable domains primary d → USERS_FILE d !! i = Some u →
  NoDup (slugs (user_sites u)).
Proof.
  intros Hreach. revert i u.
  induction Hreach as [|env body d _ IH|env userId body d r d' _ IH Hup];
    intros i u Hu.
  - simpl in Hu. by rewrite lookup_empty in Hu.
  - destruct (register_trace env body d) as (_ & _ & [Hsame | Hnew]).
    + rewrite Hsame in Hu. by apply (IH i).
    + destruct Hnew as (name & mail & pass & users0 & _ & _ & _ & _ & Hread
                        & _ & _ & Hfile).
      rewrite Hfile, lookup_insert in Hu. case_decide.
      * injection Hu as <-. apply NoDup_nil_2.
      * destruct Hread as [-> | ->]; [by apply (IH i)|].
        by rewrite lookup_empty in Hu.
  - destruct (upload_trace _ _ _ _ _ _ _ _ Hup)
      as [[-> _] | (h & user & slug & finalSlug & _ & Huser & _ & _ & Huniq
                    & [[-> _] | [[-> _] | (r' & _ & _ & Hsite & _ & _ & _ & _
                                           & ->)]])];
      try by apply (IH i).
    simpl in Hu. rewrite lookup_insert in Hu. case_decide; [|by apply (IH i)].
    injection Hu as <-. rewrite slugs_withSite, Hsite. simpl.
    apply NoDup_app. split; [by apply (IH userId)|]. split.
    + intros x Hx [->|[]%elem_of_nil]%elem_of_cons.
      by apply uniqueSlug_free in Huniq.
    + apply NoDup_singleton.
Qed.

Lemma reachable_slugs_unique_witness :
  slugs (user_sites bob_domains) = ["test"; "shop"; "shop-1"; "blog"; "wiki"]
  ∧ NoDup (slugs (user_sites bob_domains)).
Proof.
  split; [by vm_compute|].
  apply (reachable_slugs_unique Deployment.SUPPORTED_DOMAINS
           Deployment.PRIMARY_DOMAIN bob_domains_disk "u9").
  - apply bob_domains_reachable.
  - by vm_compute.
Defined.

(** A recorded site is as the upload handler built it. *)
Lemma reachable_site_record domains primary d i u s :
  reachable domains primary d → recorded d i u s →
  site_urls s = generateSiteUrls domains (user_subdomain u) (site_slug s)
  ∧ site_visits s = 0 ∧ site_published s = true.
Proof.
  intros Hreach Hrec.
  destruct Hrec as [Hu Hs]. revert i u s Hu Hs.
  induction Hreach as [|env body d _ IH|env userId body d r d' _ IH Hup];
    intros i u s Hu Hs.
  - simpl in Hu. by rewrite lookup_empty in Hu.
  - destruct (register_trace env body d) as (_ & _ & [Hsame | Hnew]).
    + rewrite Hsame in Hu. by apply (IH i).
    + destruct Hnew as (name & mail & pass & users0 & _ & _ & _ & _ & Hread
                        & _ & _ & Hfile).
      rewrite Hfile, lookup_insert in Hu. case_decide.
      * injection Hu as <-. by apply elem_of_nil in Hs.
      * destruct Hread as [-> | ->]; [by apply (IH i)|].
        by rewrite lookup_empty in Hu.
  - destruct (upload_trace _ _ _ _ _ _ _ _ Hup)
      as [[-> _] | (h & user & slug & finalSlug & _ & Huser & _ & _ & Huniq
                    & [[-> _] | [[-> _] | (r' & _ & _ & Hsite & _ & _ & _ & _
                                           & ->)]])];
      try by apply (IH i).
    simpl in Hu. rewrite lookup_insert in Hu. case_decide; [|by apply (IH i)].
    injection Hu as <-. simpl in Hs.
    apply elem_of_app in Hs as [Hs | ->%list_elem_of_singleton].
    + by apply (IH userId user).
    + by rewrite Hsite.
Qed.

(** X2. In every state the server reaches, each recorded site keeps the
    URL mapping it was created with, which is the one [generateSiteUrls]
    gives for the subdomain of its user and its slug: the URL
    [https://{subdomain}-{slug}.{domain}] for each configured domain and
    nothing else; its visit counter is 0 and it is published. *)
Theorem reachable_site_urls domains primary d i u s :
  reachable domains primary d → recorded d i u s →
  (∀ dom, dom ∈ domains →
     site_urls s !! dom
     = Some ("https://" +:+ user_subdomain u +:+ "-" +:+ site_slug s
             +:+ "." +:+ dom))
  ∧ (∀ dom, dom ∉ domains → site_urls s !! dom = None)
  ∧ site_visits s = 0
  ∧ site_published s = true.
Proof.
  intros Hreach Hrec.
  destruct (reachable_site_record _ _ _ _ _ _ Hreach Hrec) as (-> & Hv & Hp).
  split; [|split]; [..|done].
  - intros dom Hdom. rewrite lookup_generateSiteUrls. by rewrite decide_True.
  - intros dom Hdom. rewrite lookup_generateSiteUrls. by rewrite decide_False.
Qed.

Lemma reachable_site_urls_witness :
  (∀ dom, dom ∈ Deployment.SUPPORTED_DOMAINS →
     site_urls bob_site !! dom
     = Some ("https://" +:+ user_subdomain (withSite bob bob_site) +:+ "-"
             +:+ site_slug bob_site +:+ "." +:+ dom))
  ∧ (∀ dom, dom ∉ Deployment.SUPPORTED_DOMAINS →
       site_urls bob_site !! dom = None)
  ∧ site_visits bob_site = 0
  ∧ site_published bob_site = true.
Proof.
  apply (reachable_site_urls Deployment.SUPPORTED_DOMAINS
           Deployment.PRIMARY_DOMAIN bob_published_disk "u9").
  - apply bob_published_reachable.
  - apply bob_site_recorded.
Defined.

(** X3. In every state the server reaches, the page of each recorded
    site is stored, at [{subdomain}/{slug}/index.html] below the users
    directory, and its directory exists: no record refers to content that
    was not written. *)
Theorem reachable_sites_have_pages domains primary d i u s :
  reachable domains primary d → recorded d i u s →
  is_Some (files d !! [user_subdomain u; site_slug s; "index.html"])
  ∧ [user_subdomain u; site_slug s] ∈ dirs d.
Proof.
  intros Hreach [Hu Hs]. revert i u s Hu Hs.
  induction Hreach as [|env body d _ IH|env userId body d r d' _ IH Hup];
    intros i u s Hu Hs.
  - simpl in Hu. by rewrite lookup_empty in Hu.
  - destruct (register_trace env body d) as (Hfiles & Hdirs & Husers).
    rewrite Hfiles.
    assert (∃ j, USERS_FILE d !! j = Some u) as [j Hj].
    { destruct Husers as [Hsame | Hnew].
      - exists i. by rewrite <- Hsame.
      - destruct Hnew as (name & mail & pass & users0 & _ & _ & _ & _ & Hread
                          & _ & _ & Hfile).
        rewrite Hfile, lookup_insert in Hu. case_decide.
        + injection Hu as <-. by apply elem_of_nil in Hs.
        + destruct Hread as [-> | ->]; [by exists i|].
          by rewrite lookup_empty in Hu. }
    destruct (IH j u s Hj Hs) as [Hpage Hdir]. split; [done|].
    by apply Hdirs.
  - destruct (upload_trace _ _ _ _ _ _ _ _ Hup)
      as [[-> _] | (h & user & slug & finalSlug & _ & Huser & _ & _ & Huniq
                    & [[-> _] | [[-> _] | (r' & _ & _ & Hsite & _ & _ & _ & _
                                           & ->)]])].
    + by apply (IH i).
    + destruct (IH i u s Hu Hs) as [Hpage Hdir]. split; [done|].
      simpl. apply elem_of_union. by left.
    + destruct (IH i u s Hu Hs) as [Hpage Hdir]. split.
      * simpl. apply lookup_insert_is_Some'. by right.
      * simpl. apply elem_of_union. by left.
    + simpl in Hu. simpl. rewrite lookup_insert in Hu.
      assert (∀ v t, USERS_FILE d !! i = Some v → t ∈ user_sites v →
                is_Some (<[[user_subdomain user; finalSlug; "index.html"] :=
                            weave h (favicon body) (css body) (js body)]>
                           (files d)
                         !! [user_subdomain v; site_slug t; "index.html"])
                ∧ [user_subdomain v; site_slug t]
                  ∈ dirs d ∪ list_to_set
                               (ancestors [user_subdomain user; finalSlug]))
        as Hold.
      { intros v t Hv Ht. destruct (IH i v t Hv Ht) as [Hpage Hdir]. split.
        - apply lookup_insert_is_Some'. by right.
        - apply elem_of_union. by left. }
      case_decide as Hi; [|by apply Hold].
      subst i. injection Hu as <-. simpl in Hs.
      cbn [withSite user_subdomain].
      apply elem_of_app in Hs as [Hs | ->%list_elem_of_singleton].
      * by apply (Hold user s).
      * rewrite Hsite. cbn [site_slug]. split.
        -- apply lookup_insert_is_Some'. by left.
        -- apply elem_of_union_r, elem_of_union_r, elem_of_union_l.
           by apply elem_of_singleton_2.
Qed.

Lemma reachable_sites_have_pages_witness :
  is_Some (files bob_published_disk
             !! [user_subdomain (withSite bob bob_site); site_slug bob_site;
                 "index.html"])
  ∧ [user_subdomain (withSite bob bob_site); site_slug bob_site]
    ∈ dirs bob_published_disk.
Proof.
  apply (reachable_sites_have_pages Deployment.SUPPORTED_DOMAINS
           Deployment.PRIMARY_DOMAIN bob_published_disk "u9").
  - apply bob_published_reachable.
  - apply bob_site_recorded.
Defined.

Lemma store_inv_subdomains users i j u v :
  store_inv users → users !! i = Some u → users !! j = Some v → i ≠ j →
  user_subdomain u ≠ user_subdomain v.
Proof.
  intros [Hnamed Hdistinct] Hu Hv Hne Heq.
  destruct (Hnamed i u Hu) as (w & Hw & Hfree).
  destruct (Hnamed j v Hv) as (w' & Hw' & Hfree').
  apply (Hdistinct i j u v Hu Hv Hne).
  apply (hyphen_split_inj _ _ w w'); [done..|]. by rewrite <- Hw, <- Hw'.
Qed.

(** X4. In a state the server has reached, an upload, whatever its
    outcome, leaves the page of every recorded site as it is: the page it
    writes goes to a path that no recorded site has, of the same user (the
    slug is new among the user's slugs) or of another (the subdomains
    differ). *)
Theorem upload_keeps_recorded_pages
    domains primary env userId body d resp d' i u s :
  reachable domains primary d →
  upload domains primary env userId body d = Some (resp, d') →
  recorded d i u s →
  files d' !! [user_subdomain u; site_slug s; "index.html"]
  = files d !! [user_subdomain u; site_slug s; "index.html"].
Proof.
  intros Hreach Hup [Hu Hs].
  destruct (upload_trace _ _ _ _ _ _ _ _ Hup)
    as [[-> _] | (h & user & slug & finalSlug & _ & Huser & _ & _ & Huniq
                  & Hcases)]; [done|].
  assert ([user_subdomain user; finalSlug; "index.html"]
          ≠ [user_subdomain u; site_slug s; "index.html"]) as Hpath.
  { intros [= Hsub Hslug]. destruct (decide (i = userId)) as [->|Hne].
    - assert (u = user) as -> by congruence.
      apply uniqueSlug_free in Huniq. apply Huniq. rewrite Hslug.
      unfold slugs. apply list_elem_of_fmap. by exists s.
    - apply reachable_store_inv in Hreach.
      by apply (store_inv_subdomains _ i userId u user Hreach). }
  destruct Hcases as [[-> _] | [[-> _] | (r' & _ & _ & _ & _ & _ & _ & _ & ->)]];
    simpl; [done|by rewrite lookup_insert_ne..].
Qed.

Lemma upload_keeps_recorded_pages_witness :
  ∃ resp d',
    upload Deployment.SUPPORTED_DOMAINS Deployment.PRIMARY_DOMAIN all_ok_env
      "u9" test_body bob_published_disk = Some (resp, d')
    ∧ files d' !! [user_subdomain (withSite bob bob_site);
                   site_slug bob_site; "index.html"]
      = files bob_published_disk
        !! [user_subdomain (withSite bob bob_site); site_slug bob_site;
            "index.html"].
Proof.
  eexists _, _. split; [reflexivity|].
  eapply (upload_keeps_recorded_pages Deployment.SUPPORTED_DOMAINS
            Deployment.PRIMARY_DOMAIN all_ok_env "u9" test_body
            bob_published_disk).
  - apply bob_published_reachable.
  - reflexivity.
  - apply bob_site_recorded.
Defined.

(** X5. A successful upload changes one record of [users.json], the one
    of the uploader, and in it only the list of sites, to which the new
    site is appended; every other record is as it was.  It writes one
    file, the page of the new site, and leaves every other file and every
    directory in place. *)
Theorem upload_changes_one_record domains primary env userId body d r d' :
  upload domains primary env userId body d = Some (Published r, d') →
  ∃ user user',
    USERS_FILE d !! userId = Some user
    ∧ USERS_FILE d' !! userId = Some user'
    ∧ user_sites user' = user_sites user ++ [ok_site r]
    ∧ (user_id user' = user_id user
       ∧ user_username user' = user_username user
       ∧ user_email user' = user_email user
       ∧ user_password user' = user_password user
       ∧ user_createdAt user' = user_createdAt user
       ∧ user_subdomain user' = user_subdomain user)
    ∧ (∀ j, j ≠ userId → USERS_FILE d' !! j = USERS_FILE d !! j)
    ∧ (∀ p, p ≠ [user_subdomain user; site_slug (ok_site r); "index.html"] →
         files d' !! p = files d !! p)
    ∧ is_Some (files d' !! [user_subdomain user; site_slug (ok_site r);
                            "index.html"])
    ∧ dirs d ⊆ dirs d'.
Proof.
  intros Hup.
  destruct (upload_trace _ _ _ _ _ _ _ _ Hup)
    as [[_ [e [=]]] | (h & user & slug & finalSlug & _ & Huser & _ & _ & _
                       & [[_ [=]] | [[_ [=]] | (r' & [= <-] & _ & Hsite & _
                                                & _ & _ & _ & ->)]])].
  exists user, (withSite user (ok_site r)). rewrite Hsite. simpl.
  split; [done|]. split; [apply lookup_insert_eq|]. split; [done|].
  split; [done|]. split; [|split; [|split]].
  - intros j Hj. by rewrite lookup_insert_ne.
  - intros p Hp. by rewrite lookup_insert_ne.
  - rewrite lookup_insert_eq. by eexists.
  - apply union_subseteq_l.
Qed.

Lemma upload_changes_one_record_witness :
  ∃ r,
    upload Deployment.SUPPORTED_DOMAINS Deployment.PRIMARY_DOMAIN all_ok_env
      "u9" test_body bob_disk = Some (Published r, bob_published_disk)
    ∧ ∃ user user',
        USERS_FILE bob_disk !! "u9" = Some user
        ∧ USERS_FILE bob_published_disk !! "u9" = Some user'
        ∧ user_sites user' = user_sites user ++ [ok_site r]
        ∧ (user_id user' = user_id user
           ∧ user_username user' = user_username user
           ∧ user_email user' = user_email user
           ∧ user_password user' = user_password user
           ∧ user_createdAt user' = user_createdAt user
           ∧ user_subdomain user' = user_subdomain user)
        ∧ (∀ j, j ≠ "u9" →
             USERS_FILE bob_published_disk !! j = USERS_FILE bob_disk !! j)
        ∧ (∀ p, p ≠ [user_subdomain user; site_slug (ok_site r);
                     "index.html"] →
             files bob_published_disk !! p = files bob_disk !! p)
        ∧ is_Some (files bob_published_disk
                     !! [user_subdomain user; site_slug (ok_site r);
                         "index.html"])
        ∧ dirs bob_disk ⊆ dirs bob_published_disk.
Proof.
  destruct bob_published as (r & Hup & _). exists r. split; [exact Hup|].
  exact (upload_changes_one_record Deployment.SUPPORTED_DOMAINS
           Deployment.PRIMARY_DOMAIN all_ok_env "u9" test_body bob_disk r
           bob_published_disk Hup).
Defined.

(** ** The listing and the response *)

(** A read of the URL mapping: the URL for a configured domain; for
    another key what [Object.prototype] has under it, if anything. *)
Lemma get_generateSiteUrls domains sub slug key :
  (key ∈ domains →
   Js.get (generateSiteUrls domains sub slug) key
   = Js.Own (siteUrl sub slug key))
  ∧ (key ∉ domains → key ∈ Js.object_prototype_keys →
     Js.get (generateSiteUrls domains sub slug) key = Js.Inherited key)
  ∧ (key ∉ domains → key ∉ Js.object_prototype_keys →
     Js.get (generateSiteUrls domains sub slug) key = Js.Undefined).
Proof.
  split; [|split].
  - intros Hin. apply get_Own.
    by rewrite lookup_generateSiteUrls, decide_True.
  - intros Hout Hkey. apply get_Inherited.
    by rewrite lookup_generateSiteUrls, decide_False.
  - intros Hout Hkey. apply get_Undefined.
    by rewrite lookup_generateSiteUrls, decide_False.
Qed.

(** [urls[domain] || urls[PRIMARY_DOMAIN]]: the fallback is taken only
    when the first read is [undefined]. *)
Lemma or_value_generateSiteUrls domains sub slug key primary :
  Js.or_value (Js.get (generateSiteUrls domains sub slug) key)
              (Js.get (generateSiteUrls domains sub slug) primary)
  = match Js.get (generateSiteUrls domains sub slug) key with
    | Js.Undefined => Js.get (generateSiteUrls domains sub slug) primary
    | found => found
    end.
Proof.
  unfold Js.or_value.
  destruct (Js.get (generateSiteUrls domains sub slug) key) as [url|k|]
    eqn:Hget; [|done..].
  apply get_Own in Hget. rewrite lookup_generateSiteUrls in Hget.
  case_decide; [|done]. by injection Hget as <-.
Qed.

(** X6. In a state the server has reached, with the primary domain among
    the configured ones, [GET /api/user/sites] lists the sites of the user
    in the order of the record.  The primary URL of every entry is the URL
    of the primary domain.  The URL of an entry is the URL of the site's
    own domain when that domain is configured; when it is not, the URL is
    the primary URL, unless the domain of the site is the name of a
    property of [Object.prototype]: then the read of the mapping finds the
    inherited value, the fallback is not taken, and the entry carries that
    value in place of a URL. *)
Theorem userSites_urls domains primary d userId u :
  reachable domains primary d → primary ∈ domains →
  USERS_FILE d !! userId = Some u →
  view_site <$> userSites primary true userId d = user_sites u
  ∧ ∀ v, v ∈ userSites primary true userId d →
      view_primaryUrl v
      = Js.Own ("https://" +:+ user_subdomain u +:+ "-"
                +:+ site_slug (view_site v) +:+ "." +:+ primary)
      ∧ (site_domain (view_site v) ∈ domains →
         view_url v
         = Js.Own ("https://" +:+ user_subdomain u +:+ "-"
                   +:+ site_slug (view_site v) +:+ "."
                   +:+ site_domain (view_site v)))
      ∧ (site_domain (view_site v) ∉ domains →
         site_domain (view_site v) ∉ Js.object_prototype_keys →
         view_url v = view_primaryUrl v)
      ∧ (site_domain (view_site v) ∉ domains →
         site_domain (view_site v) ∈ Js.object_prototype_keys →
         view_url v = Js.Inherited (site_domain (view_site v))).
Proof.
  intros Hreach Hprimary Hu. unfold userSites. simpl.
  rewrite (get_own _ _ _ Hu). split.
  - rewrite <- list_fmap_compose. apply list_fmap_id.
  - intros v (s & -> & Hs)%list_elem_of_fmap. simpl.
    destruct (reachable_site_record _ _ _ _ _ _ Hreach (conj Hu Hs))
      as (-> & _ & _).
    rewrite or_value_generateSiteUrls.
    rewrite (proj1 (get_generateSiteUrls domains (user_subdomain u)
                      (site_slug s) primary) Hprimary).
    destruct (get_generateSiteUrls domains (user_subdomain u) (site_slug s)
                (site_domain s)) as (Hown & Hinh & Hund).
    split; [done|]. split; [|split].
    + intros Hd. by rewrite Hown.
    + intros Hd Hk. by rewrite Hund.
    + intros Hd Hk. by rewrite Hinh.
Qed.

Lemma userSites_urls_witness :
  (view_site <$> userSites Deployment.PRIMARY_DOMAIN true "u9"
                   bob_domains_disk
   = user_sites bob_domains
   ∧ ∀ v, v ∈ userSites Deployment.PRIMARY_DOMAIN true "u9"
                bob_domains_disk →
       view_primaryUrl v
       = Js.Own ("https://" +:+ user_subdomain bob_domains +:+ "-"
                 +:+ site_slug (view_site v) +:+ "."
                 +:+ Deployment.PRIMARY_DOMAIN)
       ∧ (site_domain (view_site v) ∈ Deployment.SUPPORTED_DOMAINS →
          view_url v
          = Js.Own ("https://" +:+ user_subdomain bob_domains
                    +:+ "-" +:+ site_slug (view_site v) +:+ "."
                    +:+ site_domain (view_site v)))
       ∧ (site_domain (view_site v) ∉ Deployment.SUPPORTED_DOMAINS →
          site_domain (view_site v) ∉ Js.object_prototype_keys →
          view_url v = view_primaryUrl v)
       ∧ (site_domain (view_site v) ∉ Deployment.SUPPORTED_DOMAINS →
          site_domain (view_site v) ∈ Js.object_prototype_keys →
          view_url v = Js.Inherited (site_domain (view_site v))))
  ∧ view_url <$> userSites Deployment.PRIMARY_DOMAIN true "u9"
                   bob_domains_disk
    = [Js.Own "https://bob-quicksite1-test.ntandostore";
       Js.Own "https://bob-quicksite1-shop.ntando.app";
       Js.Own "https://bob-quicksite1-shop-1.ntandostore";
       Js.Inherited "constructor";
       Js.Inherited "__proto__"].
Proof.
  split; [|by vm_compute].
  apply (userSites_urls Deployment.SUPPORTED_DOMAINS Deployment.PRIMARY_DOMAIN
           bob_domains_disk "u9").
  - apply bob_domains_reachable.
  - left.
  - by vm_compute.
Defined.

(** X7. After a successful upload the listing of the uploader is the
    listing of before with one more entry at the end, the new site.  Its
    primary URL is the one of the response; its URL is the one of the
    response whenever the read that gave it found something, an inherited
    value included, and is the primary URL when the [url] of the response
    is [undefined].  The listing of every other user is as before. *)
Theorem userSites_after_upload domains primary env userId body d r d' :
  upload domains primary env userId body d = Some (Published r, d') →
  (∃ v, userSites primary true userId d'
        = userSites primary true userId d ++ [v]
        ∧ view_site v = ok_site r
        ∧ view_primaryUrl v = ok_primaryUrl r
        ∧ (ok_url r ≠ Js.Undefined → view_url v = ok_url r)
        ∧ (ok_url r = Js.Undefined → view_url v = ok_primaryUrl r))
  ∧ ∀ read_ok j, j ≠ userId →
      userSites primary read_ok j d' = userSites primary read_ok j d.
Proof.
  intros Hup.
  destruct (upload_trace _ _ _ _ _ _ _ _ Hup)
    as [[_ [e [=]]] | (h & user & slug & finalSlug & _ & Huser & _ & _ & _
                       & [[_ [=]] | [[_ [=]] | (r' & [= <-] & _ & Hsite
                                                & Hurls & Hdom & Hurl & Hprim
                                                & ->)]])].
  split.
  - unfold userSites. simpl.
    rewrite (get_own _ _ _ (lookup_insert_eq _ _ _)), (get_own _ _ _ Huser).
    simpl. rewrite map_app. simpl. eexists. split; [reflexivity|]. simpl.
    rewrite Hsite, Hprim, Hurl, Hdom, Hurls. simpl.
    split; [done|]. split; [done|].
    rewrite or_value_generateSiteUrls.
    destruct (Js.get _ (Js.or_else (preferredDomain body) primary));
      split; done.
  - intros read_ok j Hj. unfold userSites, Js.get. simpl.
    by rewrite lookup_insert_ne.
Qed.

Lemma userSites_after_upload_witness :
  ∃ r d',
    upload Deployment.SUPPORTED_DOMAINS Deployment.PRIMARY_DOMAIN all_ok_env
      "u9" constructor_domain_body bob_published_disk
    = Some (Published r, d')
    ∧ ok_url r = Js.Inherited "constructor"
    ∧ (∃ v, userSites Deployment.PRIMARY_DOMAIN true "u9" d'
            = userSites Deployment.PRIMARY_DOMAIN true "u9"
                bob_published_disk ++ [v]
            ∧ view_site v = ok_site r
            ∧ view_primaryUrl v = ok_primaryUrl r
            ∧ (ok_url r ≠ Js.Undefined → view_url v = ok_url r)
            ∧ (ok_url r = Js.Undefined → view_url v = ok_primaryUrl r))
    ∧ ∀ read_ok j, j ≠ "u9" →
        userSites Deployment.PRIMARY_DOMAIN read_ok j d'
        = userSites Deployment.PRIMARY_DOMAIN read_ok j bob_published_disk.
Proof.
  eexists _, _. split; [reflexivity|]. split; [reflexivity|].
  apply (userSites_after_upload Deployment.SUPPORTED_DOMAINS
           Deployment.PRIMARY_DOMAIN all_ok_env "u9" constructor_domain_body
           bob_published_disk).
  reflexivity.
Defined.

(** X8. The success response of an upload agrees with the record it
    stored: the slug, the domain and the URL mapping of the response are
    those of the site.  Its primary URL is the URL of the primary domain
    when that domain is configured.  Its URL is the URL of the selected
    domain when that domain is configured; when it is not, the [url] is
    [undefined], unless the selected domain is the name of a property of
    [Object.prototype], and then it is the inherited value: a built-in
    function, or [Object.prototype] itself for [__proto__]. *)
Theorem upload_response_urls domains primary env userId body d r d' :
  upload domains primary env userId body d = Some (Published r, d') →
  ok_slug r = site_slug (ok_site r)
  ∧ ok_domain r = site_domain (ok_site r)
  ∧ ok_urls r = site_urls (ok_site r)
  ∧ ∃ user,
      USERS_FILE d !! userId = Some user
      ∧ (primary ∈ domains →
         ok_primaryUrl r
         = Js.Own ("https://" +:+ user_subdomain user +:+ "-" +:+ ok_slug r
                   +:+ "." +:+ primary))
      ∧ (ok_domain r ∈ domains →
         ok_url r
         = Js.Own ("https://" +:+ user_subdomain user +:+ "-" +:+ ok_slug r
                   +:+ "." +:+ ok_domain r))
      ∧ (ok_domain r ∉ domains → ok_domain r ∉ Js.object_prototype_keys →
         ok_url r = Js.Undefined)
      ∧ (ok_domain r ∉ domains → ok_domain r ∈ Js.object_prototype_keys →
         ok_url r = Js.Inherited (ok_domain r)).
Proof.
  intros Hup.
  destruct (upload_trace _ _ _ _ _ _ _ _ Hup)
    as [[_ [e [=]]] | (h & user & slug & finalSlug & _ & Huser & _ & _ & _
                       & [[_ [=]] | [[_ [=]] | (r' & [= <-] & Hslug & Hsite
                                                & Hurls & Hdom & Hurl & Hprim
                                                & ->)]])].
  rewrite Hsite, Hslug. simpl.
  split; [done|]. split; [done|]. split; [done|].
  exists user. split; [done|].
  rewrite Hprim, Hurl, Hurls.
  destruct (get_generateSiteUrls domains (user_subdomain user) finalSlug
              primary) as (Hown' & _).
  destruct (get_generateSiteUrls domains (user_subdomain user) finalSlug
              (ok_domain r)) as (Hown & Hinh & Hund).
  split; [done|]. split; [done|]. split; [done|]. done.
Qed.

Lemma upload_response_urls_witness :
  ∃ r d',
    upload Deployment.SUPPORTED_DOMAINS Deployment.PRIMARY_DOMAIN all_ok_env
      "u9" proto_domain_body bob_published_disk = Some (Published r, d')
    ∧ ok_url r = Js.Inherited "__proto__"
    ∧ ok_slug r = site_slug (ok_site r)
    ∧ ok_domain r = site_domain (ok_site r)
    ∧ ok_urls r = site_urls (ok_site r)
    ∧ ∃ user,
        USERS_FILE bob_published_disk !! "u9" = Some user
        ∧ (Deployment.PRIMARY_DOMAIN ∈ Deployment.SUPPORTED_DOMAINS →
           ok_primaryUrl r
           = Js.Own ("https://" +:+ user_subdomain user +:+ "-" +:+ ok_slug r
                     +:+ "." +:+ Deployment.PRIMARY_DOMAIN))
        ∧ (ok_domain r ∈ Deployment.SUPPORTED_DOMAINS →
           ok_url r
           = Js.Own ("https://" +:+ user_subdomain user +:+ "-" +:+ ok_slug r
                     +:+ "." +:+ ok_domain r))
        ∧ (ok_domain r ∉ Deployment.SUPPORTED_DOMAINS →
           ok_domain r ∉ Js.object_prototype_keys →
           ok_url r = Js.Undefined)
        ∧ (ok_domain r ∉ Deployment.SUPPORTED_DOMAINS →
           ok_domain r ∈ Js.object_prototype_keys →
           ok_url r = Js.Inherited (ok_domain r)).
Proof.
  eexists _, _. split; [reflexivity|]. split; [reflexivity|].
  eapply (upload_response_urls Deployment.SUPPORTED_DOMAINS
            Deployment.PRIMARY_DOMAIN all_ok_env "u9" proto_domain_body
            bob_published_disk).
  reflexivity.
Defined.

(** ** Registration *)

(** What a success response of the registration tells. *)
Lemma register_Registered env body d token user d' :
  register env body d = (Registered token user, d') →
  token = reg_token env
  ∧ user_id user = reg_userId env
  ∧ username body = Some (user_username user)
  ∧ email body = Some (user_email user)
  ∧ validateUsername (user_username user) = true
  ∧ user_subdomain user
    = generateSubdomain (reg_draw env) (user_username user)
  ∧ user_sites user = []
  ∧ d' = mkdir [user_subdomain user]
           (writeUsers
              (<[reg_userId env := user]>
                 (if reg_read_ok env then USERS_FILE d else ∅)) d).
Proof.
  unfold register.
  destruct (username body) as [name|]; [|done].
  destruct (email body) as [mail|]; [|done].
  destruct (password body) as [pass|]; [|done].
  destruct (_ || _); [done|].
  destruct (validateUsername name) eqn:Hvalid; [|done]. cbn [negb].
  destruct (String.length pass <? 6); [done|].
  destruct (someUser _ _); [done|].
  destruct (someUser _ _); [done|].
  destruct (negb (reg_write_ok env)); [done|].
  destruct (negb (reg_mkdir_ok env)); [done|].
  intros [= <- <- <-]. by repeat split.
Qed.

(** X9. A user who has just registered can publish.  After a successful
    registration, an upload by the new user that has content and a valid
    candidate slug, with the file system cooperating, is published under
    that very slug; the page is stored at
    [{subdomain}/{slug}/index.html], and the listing of the user then
    holds this one site. *)
Theorem register_then_upload
    domains primary renv rbody d token user d1 env body slug :
  register renv rbody d = (Registered token user, d1) →
  Js.truthy (html body) = true → up_io_ok env →
  candidateSlug (siteSlug body) (siteName body) = Some slug →
  validateSubdomain slug = true →
  ∃ r d2 h,
    upload domains primary env (user_id user) body d1
    = Some (Published r, d2)
    ∧ ok_slug r = slug
    ∧ html body = Some h
    ∧ files d2 !! [user_subdomain user; slug; "index.html"]
      = Some (weave h (favicon body) (css body) (js body))
    ∧ view_site <$> userSites primary true (user_id user) d2 = [ok_site r].
Proof.
  intros Hreg (h & Hh & Hne)%truthy_true Hio Hcand Hvalid.
  destruct (register_Registered _ _ _ _ _ _ Hreg)
    as (_ & Hid & _ & _ & _ & _ & Hsites & ->).
  assert (USERS_FILE
            (mkdir [user_subdomain user]
               (writeUsers
                  (<[reg_userId renv := user]>
                     (if reg_read_ok renv then USERS_FILE d else ∅)) d))
          !! user_id user = Some user) as Huser.
  { simpl. rewrite Hid. apply lookup_insert_eq. }
  destruct (upload_succeeds domains primary env (user_id user) body _ h user
              slug slug Hh Hne Hio Huser Hcand Hvalid)
    as (r & d2 & Hup & Hslug).
  { rewrite Hsites. apply (uniqueSlug_at slug [] 0); [intros i Hi; lia|].
    apply not_elem_of_nil. }
  exists r, d2, h. split; [done|]. split; [done|]. split; [done|].
  destruct (upload_trace _ _ _ _ _ _ _ _ Hup)
    as [[_ [e [=]]] | (h' & user' & slug' & finalSlug & Hh' & Huser' & _ & _
                       & _ & [[_ [=]] | [[_ [=]] | (r' & [= <-] & Hslug'
                                                    & _ & _ & _ & _ & _
                                                    & ->)]])].
  assert (user' = user) as -> by congruence.
  assert (h' = h) as -> by congruence.
  assert (finalSlug = slug) as -> by congruence.
  split.
  - simpl. apply lookup_insert_eq.
  - unfold userSites. simpl.
    rewrite (get_own _ _ _ (lookup_insert_eq _ _ _)). simpl.
    rewrite Hsites. simpl. done.
Qed.

Lemma register_then_upload_witness :
  ∃ r d2 h,
    upload Deployment.SUPPORTED_DOMAINS Deployment.PRIMARY_DOMAIN all_ok_env
      (user_id bob) test_body bob_disk = Some (Published r, d2)
    ∧ ok_slug r = "test"
    ∧ html test_body = Some h
    ∧ files d2 !! [user_subdomain bob; "test"; "index.html"]
      = Some (weave h (favicon test_body) (css test_body) (js test_body))
    ∧ view_site <$> userSites Deployment.PRIMARY_DOMAIN true (user_id bob) d2
      = [ok_site r].
Proof.
  apply (register_then_upload Deployment.SUPPORTED_DOMAINS
           Deployment.PRIMARY_DOMAIN bob_env bob_body initial_disk "token"
           bob bob_disk all_ok_env test_body "test").
  - vm_compute. reflexivity.
  - reflexivity.
  - repeat split.
  - reflexivity.
  - reflexivity.
Defined.

(** X10. A registration that is refused writes no file and makes no
    directory; unless the answer is the 500 of the catch block, it leaves
    [users.json] as it was too.  A refusal for a missing field, an invalid
    username or a short password does not depend on the store. *)
Theorem register_rejected_disk env body d e d' :
  register env body d = (RegisterRejected e, d') →
  files d' = files d
  ∧ dirs d' = dirs d
  ∧ (e ≠ RegistrationFailed → d' = d)
  ∧ (e = FieldsRequired ∨ e = InvalidUsername ∨ e = PasswordTooShort →
     ∀ env0 d0, (register env0 body d0).1 = RegisterRejected e).
Proof.
  unfold register.
  destruct (username body) as [name|]; [|by intros [= <- <-]].
  destruct (email body) as [mail|]; [|by intros [= <- <-]].
  destruct (password body) as [pass|]; [|by intros [= <- <-]].
  destruct (_ || _); [by intros [= <- <-]|].
  destruct (negb (validateUsername name)); [by intros [= <- <-]|].
  destruct (String.length pass <? 6); [by intros [= <- <-]|].
  destruct (someUser _ _).
  { intros [= <- <-]. repeat split; try done. by intros [?|[?|?]]. }
  destruct (someUser _ _).
  { intros [= <- <-]. repeat split; try done. by intros [?|[?|?]]. }
  destruct (negb (reg_write_ok env)).
  { intros [= <- <-]. repeat split; try done. by intros [?|[?|?]]. }
  destruct (negb (reg_mkdir_ok env)); [|done].
  intros [= <- <-]. repeat split; try done. by intros [?|[?|?]].
Qed.

Lemma register_rejected_disk_witness :
  files foreign_disk = files foreign_disk
  ∧ dirs foreign_disk = dirs foreign_disk
  ∧ (InvalidUsername ≠ RegistrationFailed → foreign_disk = foreign_disk)
  ∧ (InvalidUsername = FieldsRequired ∨ InvalidUsername = InvalidUsername
     ∨ InvalidUsername = PasswordTooShort →
     ∀ env0 d0,
       (register env0 reserved_name_body d0).1
       = RegisterRejected InvalidUsername).
Proof.
  apply (register_rejected_disk bob_env reserved_name_body foreign_disk).
  reflexivity.
Defined.

(** X11. When the user directory cannot be made, the registration answers
    500 although the record of the user has been written: the user is in
    [users.json], and a second registration under the same username is
    refused as taken. *)
Theorem register_mkdir_failure env body d name mail pass :
  username body = Some name → email body = Some mail →
  password body = Some pass →
  validateUsername name = true → mail ≠ "" → 6 ≤ String.length pass →
  (∀ i u, (if reg_read_ok env then USERS_FILE d else ∅) !! i = Some u →
          (user_username u ≠ name) ∧ (user_email u ≠ mail)) →
  reg_write_ok env = true → reg_mkdir_ok env = false →
  (register env body d).1 = RegisterRejected RegistrationFailed
  ∧ (∃ user, USERS_FILE (register env body d).2 !! reg_userId env = Some user
             ∧ user_username user = name)
  ∧ ∀ env', reg_read_ok env' = true →
      (register env' body (register env body d).2).1
      = RegisterRejected UsernameTaken.
Proof.
  intros Hname Hmail Hpass Hvalid Hne Hlen Hfresh Hwrite Hmkdir.
  unfold register. rewrite Hname, Hmail, Hpass, Hvalid.
  assert (String.eqb name "" = false) as ->.
  { apply String.eqb_neq. intros ->. by vm_compute in Hvalid. }
  assert (String.eqb mail "" = false) as -> by by apply String.eqb_neq.
  assert (String.eqb pass "" = false) as ->.
  { apply String.eqb_neq. intros ->. simpl in Hlen. lia. }
  assert ((String.length pass <? 6) = false) as -> by by apply Nat.ltb_ge.
  cbn [orb negb].
  set (users0 := if reg_read_ok env then USERS_FILE d else ∅) in *.
  assert (someUser (λ user, String.eqb (user_username user) name) users0
          = false) as ->.
  { apply someUser_false. intros i u Hu. apply String.eqb_neq.
    by apply (Hfresh i u). }
  assert (someUser (λ user, String.eqb (user_email user) mail) users0
          = false) as ->.
  { apply someUser_false. intros i u Hu. apply String.eqb_neq.
    by apply (Hfresh i u). }
  rewrite Hwrite, Hmkdir. simpl. split; [done|]. split.
  - eexists. split; [apply lookup_insert_eq | done].
  - intros env' ->.
    match goal with
    | |- context [someUser ?p ?m] =>
        assert (someUser p m = true) as ->; [|done]
    end.
    apply not_false_iff_true. intros Hnone.
    rewrite someUser_false in Hnone.
    specialize (Hnone (reg_userId env) _ (lookup_insert_eq _ _ _)).
    simpl in Hnone. by rewrite String.eqb_refl in Hnone.
Qed.

Lemma register_mkdir_failure_witness :
  (register no_mkdir_env bob_body initial_disk).1
  = RegisterRejected RegistrationFailed
  ∧ (∃ user,
       USERS_FILE (register no_mkdir_env bob_body initial_disk).2
       !! reg_userId no_mkdir_env = Some user
       ∧ user_username user = "bob")
  ∧ ∀ env', reg_read_ok env' = true →
      (register env' bob_body
         (register no_mkdir_env bob_body initial_disk).2).1
      = RegisterRejected UsernameTaken.
Proof.
  apply (register_mkdir_failure no_mkdir_env bob_body initial_disk "bob"
           "bob@x.org" "secret1").
  - reflexivity.
  - reflexivity.
  - reflexivity.
  - reflexivity.
  - discriminate.
  - simpl. lia.
  - intros i u Hu. simpl in Hu. by rewrite lookup_empty in Hu.
  - reflexivity.
  - reflexivity.
Defined.

(** X12. In every state the server reaches, each record of [users.json]
    is stored under its own id, its username passes [validateUsername],
    and its subdomain is the one [generateSubdomain] makes from that
    username for some draw; two records under different ids have
    different usernames and different emails. *)
Theorem reachable_users domains primary d :
  reachable domains primary d →
  (∀ i u, USERS_FILE d !! i = Some u →
     user_id u = i
     ∧ validateUsername (user_username u) = true
     ∧ ∃ r, user_subdomain u = generateSubdomain r (user_username u))
  ∧ (∀ i j u v,
       USERS_FILE d !! i = Some u → USERS_FILE d !! j = Some v → i ≠ j →
       user_username u ≠ user_username v ∧ user_email u ≠ user_email v).
Proof.
  induction 1 as [|env body d _ [IHa IHb]|env userId body d r d' _ [IHa IHb]
                                           Hup].
  - split; intros i; intros; simpl in *; by rewrite lookup_empty in *.
  - destruct (register_trace env body d) as (_ & _ & [-> | Hnew]); [done|].
    destruct Hnew as (name & mail & pass & users0 & _ & _ & _ & Hvalid
                      & Hread & Hname & Hmail & ->).
    assert ((∀ i u, users0 !! i = Some u →
               user_id u = i
               ∧ validateUsername (user_username u) = true
               ∧ ∃ r, user_subdomain u = generateSubdomain r (user_username u))
            ∧ (∀ i j u v, users0 !! i = Some u → users0 !! j = Some v →
                 i ≠ j →
                 user_username u ≠ user_username v
                 ∧ user_email u ≠ user_email v)) as [IHa' IHb'].
    { destruct Hread as [-> | ->]; [done|].
      split; intros i; intros; by rewrite lookup_empty in *. }
    split.
    + intros i u. rewrite lookup_insert. case_decide; [|apply IHa'].
      intros [= <-]. simpl. split; [done|]. split; [done|].
      by exists (reg_draw env).
    + intros i j u v Hu Hv Hne.
      destruct (decide (reg_userId env = i)) as [<-|Hi],
               (decide (reg_userId env = j)) as [<-|Hj].
      * done.
      * rewrite lookup_insert_eq in Hu. rewrite lookup_insert_ne in Hv by done.
        injection Hu as <-. simpl. split; intros Heq.
        -- by apply (Hname j v).
        -- by apply (Hmail j v).
      * rewrite lookup_insert_eq in Hv. rewrite lookup_insert_ne in Hu by done.
        injection Hv as <-. simpl. split.
        -- by apply (Hname i u).
        -- by apply (Hmail i u).
      * rewrite lookup_insert_ne in Hu, Hv by done. by apply (IHb' i j).
  - destruct (upload_trace _ _ _ _ _ _ _ _ Hup)
      as [[-> _] | (h & user & slug & finalSlug & _ & Huser & _ & _ & _
                    & [[-> _] | [[-> _] | (r' & _ & _ & _ & _ & _ & _ & _
                                           & ->)]])]; try done.
    simpl. destruct (IHa userId user Huser) as (Hid & Hvalid & Hsub). split.
    + intros i u. rewrite lookup_insert. case_decide; [|apply IHa].
      subst i. by intros [= <-].
    + intros i j u v Hu Hv Hne.
      destruct (decide (userId = i)) as [<-|Hi],
               (decide (userId = j)) as [<-|Hj].
      * done.
      * rewrite lookup_insert_eq in Hu. rewrite lookup_insert_ne in Hv by done.
        injection Hu as <-. simpl. by apply (IHb userId j).
      * rewrite lookup_insert_eq in Hv. rewrite lookup_insert_ne in Hu by done.
        injection Hv as <-. simpl. by apply (IHb i userId).
      * rewrite lookup_insert_ne in Hu, Hv by done. by apply (IHb i j).
Qed.

Lemma reachable_users_witness :
  size (USERS_FILE two_homes_disk) = 2
  ∧ (∀ i u, USERS_FILE two_homes_disk !! i = Some u →
       user_id u = i
       ∧ validateUsername (user_username u) = true
       ∧ ∃ r, user_subdomain u = generateSubdomain r (user_username u))
  ∧ (∀ i j u v,
       USERS_FILE two_homes_disk !! i = Some u →
       USERS_FILE two_homes_disk !! j = Some v → i ≠ j →
       user_username u ≠ user_username v ∧ user_email u ≠ user_email v).
Proof.
  split; [by vm_compute|].
  apply (reachable_users Deployment.SUPPORTED_DOMAINS
           Deployment.PRIMARY_DOMAIN two_homes_disk).
  apply two_homes_reachable.
Defined.

(** ** Derived slugs *)

Lemma norm_char_alphabet c :
  norm_char c = bool_decide (c ∈ chars derived_slug_alphabet).
Proof. destruct c as [[] [] [] [] [] [] [] []]; by vm_compute. Qed.

Lemma norm_char_subdomain c : norm_char c = true → subdomain_char c = true.
Proof. destruct c as [[] [] [] [] [] [] [] []]; by vm_compute. Qed.

Lemma norm_char_lower c : norm_char c = true → Js.lower_char c = c.
Proof. destruct c as [[] [] [] [] [] [] [] []]; by vm_compute. Qed.

Lemma norm_char_cases c :
  norm_char c = true → Js.slug_char c = true ∨ c = "-"%char.
Proof.
  unfold norm_char. intros [?|?%Ascii.eqb_eq]%orb_true_iff; [by left | by right].
Qed.

Lemma all_chars_impl (cls cls' : ascii → bool) s :
  (∀ c, cls c = true → cls' c = true) →
  Js.all_chars cls s = true → Js.all_chars cls' s = true.
Proof.
  intros Himpl. induction s as [|c r IH]; [done|]. simpl.
  intros [Hc Hr]%andb_true_iff. by rewrite (Himpl c Hc), IH.
Qed.

Lemma replace_runs_norm_chars inrun s :
  Js.all_chars norm_char (Js.replace_runs inrun s) = true.
Proof.
  revert inrun. induction s as [|c r IH]; intros inrun; [done|].
  cbn [Js.replace_runs]. destruct (Js.slug_char c) eqn:Hc.
  - cbn [Js.all_chars]. unfold norm_char at 1. by rewrite Hc, IH.
  - destruct inrun; [apply IH|]. cbn [Js.all_chars]. by rewrite IH.
Qed.

Lemma drop_final_hyphen_chars cls s :
  Js.all_chars cls s = true → Js.all_chars cls (Js.drop_final_hyphen s) = true.
Proof.
  induction s as [|c r IH]; [done|]. intros [Hc Hr]%andb_true_iff.
  destruct r as [|c' r'].
  - simpl. destruct (Ascii.eqb c "-"); [done|]. simpl. by rewrite Hc.
  - change (Js.drop_final_hyphen (String c (String c' r')))
      with (String c (Js.drop_final_hyphen (String c' r'))).
    cbn [Js.all_chars]. by rewrite Hc, IH.
Qed.

Lemma strip_edge_hyphens_chars cls s :
  Js.all_chars cls s = true →
  Js.all_chars cls (Js.strip_edge_hyphens s) = true.
Proof.
  destruct s as [|c r]; [done|]. intros Hall. cbn [Js.strip_edge_hyphens].
  destruct (Ascii.eqb c "-").
  - apply drop_final_hyphen_chars. by apply andb_true_iff in Hall as [_ ?].
  - by apply drop_final_hyphen_chars.
Qed.

Lemma startsWith_cons c r :
  Js.startsWith (String c r) "-" = Ascii.eqb c "-".
Proof.
  change (Js.startsWith (String c r) "-") with (Ascii.eqb "-" c && true).
  by rewrite andb_true_r, Ascii.eqb_sym.
Qed.

Lemma drop_final_hyphen_starts s :
  Js.startsWith s "-" = false →
  Js.startsWith (Js.drop_final_hyphen s) "-" = false.
Proof.
  destruct s as [|c [|c' r]]; [done| |].
  - intros Hc. rewrite startsWith_cons in Hc. cbn [Js.drop_final_hyphen].
    by rewrite Hc, startsWith_cons.
  - change (Js.drop_final_hyphen (String c (String c' r)))
      with (String c (Js.drop_final_hyphen (String c' r))).
    by rewrite !startsWith_cons.
Qed.

Lemma no_double_hyphen_cons c r :
  no_double_hyphen (String c r)
  = negb (Ascii.eqb c "-" && Js.startsWith r "-") && no_double_hyphen r.
Proof. reflexivity. Qed.

Lemma drop_final_hyphen_no_double s :
  no_double_hyphen s = true →
  no_double_hyphen (Js.drop_final_hyphen s) = true.
Proof.
  induction s as [|c r IH]; [done|]. intros Hnd.
  destruct r as [|c' r'].
  - simpl. by destruct (Ascii.eqb c "-").
  - change (Js.drop_final_hyphen (String c (String c' r')))
      with (String c (Js.drop_final_hyphen (String c' r'))).
    rewrite no_double_hyphen_cons in Hnd.
    apply andb_true_iff in Hnd as [Hpair Htail].
    rewrite no_double_hyphen_cons, (IH Htail), andb_true_r.
    destruct (Ascii.eqb c "-"); [|done]. rewrite andb_true_l in *.
    apply negb_true_iff in Hpair. apply negb_true_iff.
    by apply drop_final_hyphen_starts.
Qed.

Lemma drop_final_hyphen_no_trailing s r :
  no_double_hyphen s = true → Js.drop_final_hyphen s ≠ r +:+ "-".
Proof.
  revert r. induction s as [|c t IH]; intros r Hnd.
  - by destruct r.
  - destruct t as [|c' t'].
    + simpl. destruct (Ascii.eqb c "-") eqn:Hc; [by destruct r|].
      destruct r as [|a [|b r']]; simpl; [|done..].
      intros [= ->]. by vm_compute in Hc.
    + change (Js.drop_final_hyphen (String c (String c' t')))
        with (String c (Js.drop_final_hyphen (String c' t'))).
      pose proof (no_double_hyphen_tail _ _ Hnd) as Htail.
      destruct r as [|a r'].
      * change ("" +:+ "-") with "-". intros [= -> Hnil].
        apply (drop_final_hyphen_nil (String c' t')) in Hnil
          as [?|[= -> ->]]; [done|].
        by vm_compute in Hnd.
      * change (String a r' +:+ "-") with (String a (r' +:+ "-")).
        intros [= -> Heq]. by apply (IH r').
Qed.

Lemma normalized_shape rawName :
  Js.all_chars norm_char (normalized rawName) = true
  ∧ no_double_hyphen (normalized rawName) = true
  ∧ Js.startsWith (normalized rawName) "-" = false
  ∧ ∀ r, normalized rawName ≠ r +:+ "-".
Proof.
  unfold normalized.
  pose proof (replace_runs_norm_chars false (Js.toLowerCase rawName)) as Hall.
  pose proof (replace_runs_no_double_hyphen (Js.toLowerCase rawName))
    as (Hnd & _).
  generalize dependent (Js.replace_runs false (Js.toLowerCase rawName)).
  intros t Hall Hnd. split; [by apply strip_edge_hyphens_chars|].
  destruct t as [|c r]; [by split; [|split; [|intros []]]|].
  cbn [Js.strip_edge_hyphens].
  pose proof (no_double_hyphen_tail _ _ Hnd) as Htail.
  destruct (Ascii.eqb c "-") eqn:Hc.
  - split; [by apply drop_final_hyphen_no_double|]. split.
    + apply drop_final_hyphen_starts. rewrite no_double_hyphen_cons in Hnd.
      rewrite Hc, andb_true_l in Hnd.
      by apply andb_true_iff in Hnd as [?%negb_true_iff _].
    + intros r0. by apply drop_final_hyphen_no_trailing.
  - split; [by apply drop_final_hyphen_no_double|]. split.
    + apply drop_final_hyphen_starts. by rewrite startsWith_cons.
    + intros r0. by apply drop_final_hyphen_no_trailing.
Qed.

Lemma slugFromName_cases rawName :
  slugFromName rawName = "site"
  ∨ (slugFromName rawName = normalized rawName ∧ normalized rawName ≠ "").
Proof.
  unfold slugFromName. fold (normalized rawName).
  destruct (String.eqb_spec (normalized rawName) ""); [by left | by right].
Qed.

Lemma slugFromName_shape rawName :
  slugFromName rawName ≠ ""
  ∧ Js.all_chars norm_char (slugFromName rawName) = true
  ∧ no_double_hyphen (slugFromName rawName) = true
  ∧ Js.startsWith (slugFromName rawName) "-" = false
  ∧ ∀ r, slugFromName rawName ≠ r +:+ "-".
Proof.
  destruct (slugFromName_cases rawName) as [-> | [-> Hne]].
  - repeat split; try done. intros [|a [|b [|c [|e [|f r]]]]]; done.
  - split; [done|]. apply normalized_shape.
Qed.

Lemma no_double_hyphen_substring a b :
  no_double_hyphen (a +:+ "--" +:+ b) = false.
Proof.
  induction a as [|c a IH]; [done|].
  change (String c a +:+ "--" +:+ b) with (String c (a +:+ "--" +:+ b)).
  rewrite no_double_hyphen_cons, IH. apply andb_false_r.
Qed.

(** X13. A slug derived from a display name is never empty, holds only
    lowercase letters, digits and hyphens, has no hyphen at either end and
    no two hyphens in a row; so [validateSubdomain] accepts it exactly
    when its length is between 3 and 63: a derived slug is refused for its
    length only. *)
Theorem slugFromName_valid_iff_length rawName :
  slugFromName rawName ≠ ""
  ∧ (∀ c, c ∈ chars (slugFromName rawName) →
          c ∈ chars "abcdefghijklmnopqrstuvwxyz0123456789-")
  ∧ (¬ ∃ r, slugFromName rawName = "-" +:+ r)
  ∧ (¬ ∃ r, slugFromName rawName = r +:+ "-")
  ∧ (¬ ∃ a b, slugFromName rawName = a +:+ "--" +:+ b)
  ∧ (validateSubdomain (slugFromName rawName) = true
     ↔ 3 ≤ String.length (slugFromName rawName) ≤ 63).
Proof.
  destruct (slugFromName_shape rawName) as (Hne & Hall & Hnd & Hstart & Hend).
  generalize dependent (slugFromName rawName). intros t Hne Hall Hnd Hstart Hend.
  split; [done|]. split; [|split; [|split; [|split]]].
  - apply all_chars_Forall in Hall. rewrite Forall_forall in Hall.
    intros c Hc. specialize (Hall c Hc). rewrite norm_char_alphabet in Hall.
    by apply bool_decide_eq_true in Hall.
  - rewrite <- startsWith_hyphen. by rewrite Hstart.
  - intros [r Hr]. by apply (Hend r).
  - intros (a & b & ->). by rewrite no_double_hyphen_substring in Hnd.
  - unfold validateSubdomain.
    assert (Js.test_plus subdomain_char t = true) as ->.
    { destruct t as [|c r]; [done|].
      apply (all_chars_impl norm_char); [apply norm_char_subdomain | done]. }
    assert (Js.endsWith t "-" = false) as ->.
    { apply not_true_iff_false. rewrite endsWith_hyphen. intros [r Hr].
      by apply (Hend r). }
    rewrite Hstart. cbn [negb orb].
    destruct (String.length t <? 3) eqn:H3; simpl.
    { apply Nat.ltb_lt in H3. split; [done | lia]. }
    destruct (63 <? String.length t) eqn:H63; simpl.
    { apply Nat.ltb_lt in H63. split; [done | lia]. }
    apply Nat.ltb_ge in H3, H63. split; [lia | done].
Qed.

Lemma replace_runs_fixed t :
  Js.all_chars norm_char t = true → no_double_hyphen t = true →
  Js.replace_runs false t = t
  ∧ (Js.startsWith t "-" = false → Js.replace_runs true t = t).
Proof.
  induction t as [|c r IH]; [done|].
  intros [Hc Hall]%andb_true_iff Hnd.
  pose proof (no_double_hyphen_tail _ _ Hnd) as Htail.
  destruct (IH Hall Htail) as [IHf IHt].
  cbn [Js.replace_runs]. rewrite startsWith_cons.
  destruct (norm_char_cases c Hc) as [Hslug | ->].
  - rewrite Hslug, IHf. by split.
  - change (Js.slug_char "-") with false. cbn iota.
    rewrite no_double_hyphen_cons in Hnd.
    change (Ascii.eqb "-" "-") with true in *. rewrite andb_true_l in Hnd.
    apply andb_true_iff in Hnd as [Hs%negb_true_iff _].
    rewrite (IHt Hs). by split.
Qed.

Lemma toLowerCase_fixed t :
  Js.all_chars norm_char t = true → Js.toLowerCase t = t.
Proof.
  induction t as [|c r IH]; [done|]. intros [Hc Hall]%andb_true_iff.
  simpl. by rewrite (norm_char_lower c Hc), IH.
Qed.

Lemma drop_final_hyphen_fixed s :
  (∀ r, s ≠ r +:+ "-") → Js.drop_final_hyphen s = s.
Proof.
  induction s as [|c t IH]; [done|]. intros Hend.
  destruct t as [|c' t'].
  - simpl. destruct (Ascii.eqb c "-") eqn:Hc; [|done].
    apply Ascii.eqb_eq in Hc as ->. by destruct (Hend "").
  - change (Js.drop_final_hyphen (String c (String c' t')))
      with (String c (Js.drop_final_hyphen (String c' t'))).
    rewrite IH; [done|]. intros r Hr. apply (Hend (String c r)).
    simpl. by rewrite Hr.
Qed.

(** X14. Deriving a slug is idempotent: the slug derived from a derived
    slug is that slug. *)
Theorem slugFromName_idempotent rawName :
  slugFromName (slugFromName rawName) = slugFromName rawName.
Proof.
  destruct (slugFromName_shape rawName) as (Hne & Hall & Hnd & Hstart & Hend).
  generalize dependent (slugFromName rawName). intros t Hne Hall Hnd Hstart Hend.
  unfold slugFromName. rewrite (toLowerCase_fixed t Hall).
  destruct (replace_runs_fixed t Hall Hnd) as [-> _].
  assert (Js.strip_edge_hyphens t = t) as ->.
  { destruct t as [|c r]; [done|]. cbn [Js.strip_edge_hyphens].
    rewrite startsWith_cons in Hstart. rewrite Hstart.
    by apply drop_final_hyphen_fixed. }
  apply String.eqb_neq in Hne. by rewrite Hne.
Qed.

(** ** Generated subdomains *)

Lemma validateUsername_inv u :
  validateUsername u = true →
  Js.all_chars username_char u = true ∧ u ≠ ""
  ∧ 3 ≤ String.length u ≤ 30 ∧ Js.startsWith u "-" = false.
Proof.
  unfold validateUsername.
  destruct (Js.test_plus username_char u) eqn:Hplus; [|done]. cbn [negb].
  destruct (String.length u <? 3) eqn:H3; [done|].
  destruct (30 <? String.length u) eqn:H30; [done|]. cbn [orb].
  destruct (Js.startsWith u "-") eqn:Hs; [done|]. intros _.
  apply Nat.ltb_ge in H3, H30.
  split; [by destruct u|]. split; [by intros ->|]. split; [lia | done].
Qed.

Lemma underscore_free_subdomain_chars u :
  Js.all_chars username_char u = true →
  Js.all_chars subdomain_char u = true ↔ "_"%char ∉ chars u.
Proof.
  induction u as [|c r IH]; intros Hall.
  - split; [intros _; apply not_elem_of_nil | done].
  - apply andb_true_iff in Hall as [Hc Hr]. specialize (IH Hr).
    cbn [Js.all_chars]. unfold chars in *. cbn [String.list_ascii_of_string].
    rewrite andb_true_iff, not_elem_of_cons, IH.
    assert (subdomain_char c = true ↔ "_"%char ≠ c) as ->; [|done].
    clear -Hc. destruct c as [[] [] [] [] [] [] [] []]; by vm_compute in Hc |- *.
Qed.

Lemma pretty_N_go_chars (cls : ascii → bool) (x : N) (s : string) :
  (∀ y, cls (pretty_N_char y) = true) →
  Js.all_chars cls s = true → Js.all_chars cls (pretty_N_go x s) = true.
Proof.
  intros Hdigit. revert s.
  induction x as [x IH] using (well_founded_induction N.lt_wf_0).
  intros s Hs. destruct (decide (x = 0%N)) as [->|Hx].
  - by rewrite pretty_N_go_0.
  - rewrite pretty_N_go_step by lia. apply IH.
    + apply N.div_lt; lia.
    + cbn [Js.all_chars]. by rewrite Hdigit, Hs.
Qed.

Lemma pretty_nat_chars (cls : ascii → bool) (n : nat) :
  (∀ y, cls (pretty_N_char y) = true) → Js.all_chars cls (pretty n) = true.
Proof.
  intros Hdigit. unfold pretty, pretty_nat, pretty, pretty_N.
  case_decide; [|by apply pretty_N_go_chars].
  specialize (Hdigit 0%N). simpl. by rewrite andb_true_r.
Qed.

Lemma pretty_N_go_length (k : nat) (x : N) (s : string) :
  (x < 10 ^ N.of_nat k)%N →
  String.length (pretty_N_go x s) ≤ k + String.length s.
Proof.
  revert x s. induction k as [|k IH]; intros x s Hx.
  - assert (x = 0%N) as -> by (simpl in Hx; lia). by rewrite pretty_N_go_0.
  - destruct (decide (x = 0%N)) as [->|Hne].
    + rewrite pretty_N_go_0. lia.
    + rewrite pretty_N_go_step by lia.
      etrans; [apply IH|simpl; lia].
      apply N.Div0.div_lt_upper_bound.
      rewrite Nat2N.inj_succ, N.pow_succ_r' in Hx. lia.
Qed.

Lemma pretty_N_go_nonempty (x : N) (s : string) :
  s ≠ "" → pretty_N_go x s ≠ "".
Proof.
  revert s. induction x as [x IH] using (well_founded_induction N.lt_wf_0).
  intros s Hs. destruct (decide (x = 0%N)) as [->|Hx].
  - by rewrite pretty_N_go_0.
  - rewrite pretty_N_go_step by lia. apply IH; [apply N.div_lt; lia | done].
Qed.

Lemma pretty_number_length (n : nat) :
  (N.of_nat n < 9999)%N → 1 ≤ String.length (pretty (n + 1)) ≤ 4.
Proof.
  intros Hn. unfold pretty, pretty_nat, pretty, pretty_N.
  rewrite decide_False by lia. split.
  - rewrite pretty_N_go_step by lia.
    destruct (pretty_N_go _ _) eqn:Hgo; [|simpl; lia].
    by apply pretty_N_go_nonempty in Hgo.
  - pose proof (pretty_N_go_length 4 (N.of_nat (n + 1)) "") as Hlen.
    change (10 ^ N.of_nat 4)%N with 10000%N in Hlen.
    change (4 + String.length "") with 4 in Hlen. apply Hlen. lia.
Qed.

Lemma word_at_length words i lo hi :
  i < length words →
  Forall (λ w, lo ≤ String.length w ≤ hi) words →
  lo ≤ String.length (word_at words i) ≤ hi.
Proof.
  intros Hi Hall. unfold word_at. rewrite Forall_forall in Hall.
  apply Hall, list_elem_of_In, nth_In, Hi.
Qed.

Lemma word_at_chars cls words i :
  Js.all_chars cls "undefined" = true →
  Forall (λ w, Js.all_chars cls w = true) words →
  Js.all_chars cls (word_at words i) = true.
Proof.
  intros Hdef Hall. unfold word_at.
  destruct (nth_in_or_default i words "undefined") as [Hin | ->]; [|done].
  rewrite Forall_forall in Hall. apply Hall. by apply list_elem_of_In.
Qed.

Lemma append_ends_with a b r :
  b ≠ "" → a +:+ b = r +:+ "-" → ∃ r', b = r' +:+ "-".
Proof.
  intros Hb. revert r. induction a as [|c a IH]; intros r Heq.
  - by exists r.
  - destruct r as [|c' r'].
    + change (String c a +:+ b) with (String c (a +:+ b)) in Heq.
      change ("" +:+ "-") with "-" in Heq. injection Heq as _ Heq.
      destruct a; [by destruct Hb | done].
    + change (String c a +:+ b) with (String c (a +:+ b)) in Heq.
      change (String c' r' +:+ "-") with (String c' (r' +:+ "-")) in Heq.
      injection Heq as _ Heq. by apply (IH r').
Qed.

(** X15. For a username that [validateUsername] accepts and a draw that
    [generateSubdomain] can make, the generated subdomain has between 12
    and 46 characters, and [validateSubdomain] accepts it exactly when the
    username holds no underscore. *)
Theorem generateSubdomain_valid r u :
  validateUsername u = true → draw_in_range r →
  12 ≤ String.length (generateSubdomain r u) ≤ 46
  ∧ (validateSubdomain (generateSubdomain r u) = true
     ↔ "_"%char ∉ chars u).
Proof.
  intros (Hchars & Hne & Hlen & Hstart)%validateUsername_inv
    (Hnum & Hadj & Hnoun).
  unfold generateSubdomain.
  set (adj := word_at adjectives (rnd_adjective r)).
  set (noun := word_at nouns (rnd_noun r)).
  set (num := pretty (rnd_number r + 1)).
  assert (4 ≤ String.length adj ≤ 6) as Hadjlen.
  { apply word_at_length; [done|]. by repeat (constructor; [simpl; lia|]). }
  assert (3 ≤ String.length noun ≤ 5) as Hnounlen.
  { apply word_at_length; [done|]. by repeat (constructor; [simpl; lia|]). }
  pose proof (pretty_number_length _ Hnum) as Hnumlen. fold num in Hnumlen.
  assert (String.length (u +:+ "-" +:+ adj +:+ noun +:+ num)
          = String.length u + 1 + String.length adj + String.length noun
            + String.length num) as Hlength.
  { rewrite !length_string_app. simpl. lia. }
  split; [lia|].
  assert (∀ y, subdomain_char (pretty_N_char y) = true) as Hdigit.
  { intros y. unfold pretty_N_char. by repeat case_match. }
  assert (Js.all_chars subdomain_char (adj +:+ noun +:+ num) = true) as Hw.
  { rewrite !all_chars_app. unfold adj, noun, num.
    rewrite !word_at_chars, pretty_nat_chars; [done|done|..];
      try done; by repeat (constructor; [done|]). }
  assert (hyphen_free (adj +:+ noun +:+ num) = true) as Hfree.
  { rewrite !hyphen_free_app. unfold adj, noun, num.
    rewrite !word_at_hyphen_free, pretty_nat_hyphen_free; [done|..];
      by repeat (constructor; [done|]). }
  unfold validateSubdomain. rewrite Hlength.
  assert (Js.test_plus subdomain_char (u +:+ "-" +:+ adj +:+ noun +:+ num)
          = Js.all_chars subdomain_char u) as ->.
  { destruct u as [|c u']; [done|].
    change (Js.test_plus subdomain_char
              (String c u' +:+ "-" +:+ adj +:+ noun +:+ num))
      with (Js.all_chars subdomain_char
              (String c u' +:+ "-" +:+ adj +:+ noun +:+ num)).
    rewrite all_chars_app, (all_chars_app _ "-"), Hw. simpl.
    by rewrite !andb_true_r. }
  assert (Js.startsWith (u +:+ "-" +:+ adj +:+ noun +:+ num) "-" = false)
    as ->.
  { destruct u as [|c u']; [done|].
    change (String c u' +:+ "-" +:+ adj +:+ noun +:+ num)
      with (String c (u' +:+ "-" +:+ adj +:+ noun +:+ num)).
    rewrite startsWith_cons. by rewrite startsWith_cons in Hstart. }
  assert (Js.endsWith (u +:+ "-" +:+ adj +:+ noun +:+ num) "-" = false) as ->.
  { apply not_true_iff_false. rewrite endsWith_hyphen. intros [r0 Hr0].
    rewrite <- string_app_assoc in Hr0.
    apply append_ends_with in Hr0 as [r' Hr'].
    - rewrite Hr' in Hfree. pose proof (hyphen_inside r' ""). congruence.
    - intros Hnil. apply (f_equal String.length) in Hnil.
      rewrite !length_string_app in Hnil. simpl in Hnil. lia. }
  assert ((String.length u + 1 + String.length adj + String.length noun
           + String.length num <? 3) = false) as -> by (apply Nat.ltb_ge; lia).
  assert ((63 <? String.length u + 1 + String.length adj + String.length noun
                 + String.length num) = false) as ->
    by (apply Nat.ltb_ge; lia).
  cbn [orb]. rewrite <- (underscore_free_subdomain_chars u Hchars).
  by destruct (Js.all_chars subdomain_char u).
Qed.

Lemma generateSubdomain_valid_witness :
  12 ≤ String.length (generateSubdomain (reg_draw bob_env) "bob") ≤ 46
  ∧ (validateSubdomain (generateSubdomain (reg_draw bob_env) "bob") = true
     ↔ "_"%char ∉ chars "bob").
Proof.
  apply (generateSubdomain_valid (reg_draw bob_env) "bob").
  - reflexivity.
  - unfold draw_in_range. simpl. lia.
Defined.

(** ** Weaving: where the assets go *)

Lemma after_prefix_Some p s r : Js.after_prefix p s = Some r ↔ s = p +:+ r.
Proof.
  revert s. induction p as [|a p IH]; intros s.
  - simpl. split; by intros [= ->].
  - destruct s as [|b s]; cbn [Js.after_prefix].
    + split; [done | by intros [=]].
    + change (String a p +:+ r) with (String a (p +:+ r)).
      destruct (Ascii.eqb_spec a b) as [->|Hne].
      * rewrite IH. split; [by intros -> | by intros [= ->]].
      * split; [done | by intros [= ? _]].
Qed.

Lemma find_first_Some pat s before rest :
  Js.find_first pat s = Some (before, rest) →
  first_occurrence pat before rest s.
Proof.
  revert before rest. induction s as [|c s IH]; intros before rest.
  - cbn [Js.find_first].
    destruct (Js.after_prefix pat "") as [r|] eqn:Hpre; [|done].
    intros [= <- <-]. apply after_prefix_Some in Hpre.
    split; [done|]. intros; simpl; lia.
  - cbn [Js.find_first].
    destruct (Js.after_prefix pat (String c s)) as [r|] eqn:Hpre.
    + intros [= <- <-]. apply after_prefix_Some in Hpre.
      split; [done|]. intros; simpl; lia.
    + destruct (Js.find_first pat s) as [[b0 r0]|]; [|done].
      intros [= <- <-]. destruct (IH b0 r0 eq_refl) as [Hocc Hmin]. split.
      * unfold occurs_at in *. simpl. by rewrite <- Hocc.
      * intros [|c' b'] r' Hocc'.
        -- unfold occurs_at in Hocc'. simpl in Hocc'.
           apply after_prefix_Some in Hocc'. congruence.
        -- unfold occurs_at in Hocc'. simpl in Hocc'.
           injection Hocc' as _ Hocc'. specialize (Hmin b' r' Hocc').
           simpl. lia.
Qed.

Lemma find_first_None pat s :
  Js.find_first pat s = None ↔ ¬ occurs pat s.
Proof.
  split.
  - induction s as [|c s IH]; cbn [Js.find_first].
    + destruct (Js.after_prefix pat "") eqn:Hpre; [done|]. intros _.
      intros ([|c' b] & r & Hocc); unfold occurs_at in Hocc; [|done].
      simpl in Hocc. apply after_prefix_Some in Hocc. congruence.
    + destruct (Js.after_prefix pat (String c s)) eqn:Hpre; [done|].
      destruct (Js.find_first pat s) as [[b0 r0]|]; [done|]. intros _.
      intros ([|c' b] & r & Hocc); unfold occurs_at in Hocc.
      * simpl in Hocc. apply after_prefix_Some in Hocc. congruence.
      * simpl in Hocc. injection Hocc as _ Hocc.
        apply IH; [done|]. by exists b, r.
  - intros Hnone. destruct (Js.find_first pat s) as [[b r]|] eqn:Hfind;
      [|done].
    destruct Hnone. exists b, r. by apply find_first_Some in Hfind as [? _].
Qed.

Lemma append_same_length a a' x y :
  String.length a = String.length a' → a +:+ x = a' +:+ y → a = a' ∧ x = y.
Proof.
  revert a'. induction a as [|c a IH]; intros [|c' a'] Hlen Heq; try done.
  simpl in Hlen, Heq. injection Heq as -> Heq.
  destruct (IH a') as [-> ->]; [lia | done | done].
Qed.

Lemma find_first_first pat s before rest :
  first_occurrence pat before rest s →
  Js.find_first pat s = Some (before, rest).
Proof.
  intros [Hocc Hmin].
  destruct (Js.find_first pat s) as [[b r]|] eqn:Hfind.
  - apply find_first_Some in Hfind as [Hocc' Hmin'].
    specialize (Hmin b r Hocc'). specialize (Hmin' before rest Hocc).
    unfold occurs_at in *. rewrite Hocc in Hocc'.
    apply append_same_length in Hocc' as [-> Heq]; [|lia].
    by apply (inj (String.app pat)) in Heq as ->.
  - apply find_first_None in Hfind. destruct Hfind. by exists before, rest.
Qed.

(** X16. A document that holds none of the three markers is stored as it
    was submitted, whatever assets come with it: the assets are dropped. *)
Theorem weave_without_markers html favicon css js :
  ¬ occurs "<head>" html → ¬ occurs "</head>" html →
  ¬ occurs "</body>" html →
  weave html favicon css js = html.
Proof.
  intros Hhead Hclose Hbody. unfold weave.
  rewrite (weaveOne_no_marker favicon) by by apply find_first_None.
  rewrite (weaveOne_no_marker css) by by apply find_first_None.
  by rewrite (weaveOne_no_marker js) by by apply find_first_None.
Qed.

Lemma weave_without_markers_witness :
  weave "<p>hello</p>" (Some "AAAA") (Some "p { color: red }")
    (Some "init()")
  = "<p>hello</p>".
Proof.
  apply weave_without_markers; apply find_first_None; reflexivity.
Defined.

(** X17. An asset that holds no dollar sign goes where the first marker
    is: alone with the document, a favicon becomes a link right after the
    first [<head>], a stylesheet a style block right before the first
    [</head>], a script a script block right before the first [</body>];
    the rest of the document is unchanged. *)
Theorem weave_at_first_marker html asset before rest :
  asset ≠ "" → dollar_free asset = true →
  (first_occurrence "<head>" before rest html →
   weave html (Some asset) None None
   = before +:+ "<head>" +:+ newline +:+ "    <link rel=" +:+ dquote
     +:+ "icon" +:+ dquote +:+ " href=" +:+ dquote
     +:+ "data:image/x-icon;base64," +:+ asset +:+ dquote +:+ ">" +:+ rest)
  ∧ (first_occurrence "</head>" before rest html →
     weave html None (Some asset) None
     = before +:+ "<style>" +:+ asset +:+ "</style>" +:+ "</head>" +:+ rest)
  ∧ (first_occurrence "</body>" before rest html →
     weave html None None (Some asset)
     = before +:+ "<script>" +:+ asset +:+ "</script>" +:+ "</body>"
       +:+ rest).
Proof.
  intros Hne Hfree. apply String.eqb_neq in Hne.
  unfold weave, weaveOne. rewrite Hne.
  split; [|split]; intros Hfirst%find_first_first;
    rewrite replace_dollar_free, Hfirst.
  - unfold faviconTemplate. by rewrite !string_app_assoc.
  - unfold faviconTemplate. by rewrite !dollar_free_app, Hfree.
  - unfold cssTemplate. by rewrite !string_app_assoc.
  - unfold cssTemplate. by rewrite !dollar_free_app, Hfree.
  - unfold jsTemplate. by rewrite !string_app_assoc.
  - unfold jsTemplate. by rewrite !dollar_free_app, Hfree.
Qed.

Lemma weave_at_first_marker_witness :
  weave "<html><head></head><body></body></html>" None None (Some "init()")
  = "<html><head></head><body>" +:+ "<script>" +:+ "init()" +:+ "</script>"
    +:+ "</body>" +:+ "</html>".
Proof.
  apply (proj2 (proj2 (weave_at_first_marker
                         "<html><head></head><body></body></html>" "init()"
                         "<html><head></head><body>" "</html>"
                         ltac:(discriminate) eq_refl))).
  apply find_first_Some. reflexivity.
Defined.

(** X18. With every asset free of dollar signs, the page the handler
    composes is the submitted document with the favicon link inserted
    after the first [<head>], then the style block before the first
    [</head>], then the script block before the first [</body>], each
    insertion made on the result of the previous one and skipped when its
    asset is absent or empty or its marker is missing. *)
Theorem weave_verbatim html favicon css js :
  asset_dollar_free favicon = true → asset_dollar_free css = true →
  asset_dollar_free js = true →
  weave html favicon css js
  = when_supplied js (λ a, insert_before "</body>" (script_block a))
      (when_supplied css (λ a, insert_before "</head>" (style_block a))
         (when_supplied favicon
            (λ a, insert_after "<head>" (favicon_link a)) html)).
Proof. apply weave_dollar_free. Qed.

Lemma weave_verbatim_witness :
  weave "<html><head></head><body></body></html>" (Some "AAAA")
    (Some "p { color: red }") (Some "init()")
  = when_supplied (Some "init()")
      (λ a, insert_before "</body>" (script_block a))
      (when_supplied (Some "p { color: red }")
         (λ a, insert_before "</head>" (style_block a))
         (when_supplied (Some "AAAA")
            (λ a, insert_after "<head>" (favicon_link a))
            "<html><head></head><body></body></html>")).
Proof.
  apply (weave_verbatim "<html><head></head><body></body></html>"
           (Some "AAAA") (Some "p { color: red }") (Some "init()"));
    reflexivity.
Defined.

(** ** The authentication middleware *)

Lemma string_append_nil (a : string) : a +:+ "" = a.
Proof. induction a as [|c a IH]; simpl; [done | by rewrite IH]. Qed.

Lemma split_space_free s : space_free s → split " " s = [s].
Proof.
  unfold space_free, chars. induction s as [|c r IH]; [done|].
  cbn [String.list_ascii_of_string split].
  intros [Hc Hr]%not_elem_of_cons.
  destruct (Ascii.eqb_spec c " ") as [->|_]; [done|]. by rewrite IH.
Qed.

Lemma split_at_space a b :
  space_free a → split " " (a +:+ " " +:+ b) = a :: split " " b.
Proof.
  unfold space_free, chars. induction a as [|c r IH]; [done|].
  cbn [String.list_ascii_of_string].
  intros [Hc Hr]%not_elem_of_cons.
  change (String c r +:+ " " +:+ b) with (String c (r +:+ " " +:+ b)).
  cbn [split]. destruct (Ascii.eqb_spec c " ") as [->|_]; [done|].
  by rewrite IH.
Qed.

(** X19. The middleware reads the token between the first and the second
    space of the [authorization] header and looks at nothing else: the
    word before the first space may be anything.  Without a header, with a
    header that holds no space, or with nothing between the first and the
    second space, the answer is 401 and the token is not verified;
    otherwise the answer is 403 when [jwt.verify] refuses the token and
    the request goes on with the payload when it accepts it. *)
Theorem authenticateToken_reads_second_word
    (jwt_verify : string → option Identity) scheme token tail :
  space_free scheme → space_free token →
  tail = "" ∨ (∃ more, tail = " " +:+ more) →
  authenticateToken jwt_verify None = AccessTokenRequired
  ∧ authenticateToken jwt_verify (Some scheme) = AccessTokenRequired
  ∧ (token = "" →
     authenticateToken jwt_verify (Some (scheme +:+ " " +:+ token +:+ tail))
     = AccessTokenRequired)
  ∧ (token ≠ "" →
     authenticateToken jwt_verify (Some (scheme +:+ " " +:+ token +:+ tail))
     = match jwt_verify token with
       | Some user => Next user
       | None => InvalidToken
       end).
Proof.
  intros Hscheme Htoken Htail. split; [done|]. split.
  { unfold authenticateToken, bearerToken.
    destruct (String.eqb scheme ""); [done|].
    by rewrite split_space_free. }
  assert (bearerToken (Some (scheme +:+ " " +:+ token +:+ tail)) = Some token)
    as Hbearer.
  { unfold bearerToken.
    assert (String.eqb (scheme +:+ " " +:+ token +:+ tail) "" = false) as ->.
    { apply String.eqb_neq. intros Hnil.
      apply (f_equal String.length) in Hnil.
      rewrite !length_string_app in Hnil. simpl in Hnil. lia. }
    rewrite split_at_space by done.
    destruct Htail as [-> | [more ->]].
    - rewrite string_append_nil, split_space_free by done. done.
    - by rewrite split_at_space. }
  unfold authenticateToken. rewrite Hbearer. split.
  - by intros ->.
  - intros Hne. apply String.eqb_neq in Hne. simpl. by rewrite Hne.
Qed.

Lemma authenticateToken_reads_second_word_witness :
  authenticateToken sample_verify None = AccessTokenRequired
  ∧ authenticateToken sample_verify (Some "Bearer") = AccessTokenRequired
  ∧ ("abc.def" = "" →
     authenticateToken sample_verify
       (Some ("Bearer" +:+ " " +:+ "abc.def" +:+ ""))
     = AccessTokenRequired)
  ∧ ("abc.def" ≠ "" →
     authenticateToken sample_verify
       (Some ("Bearer" +:+ " " +:+ "abc.def" +:+ ""))
     = match sample_verify "abc.def" with
       | Some user => Next user
       | None => InvalidToken
       end).
Proof.
  apply (authenticateToken_reads_second_word sample_verify "Bearer"
           "abc.def" "").
  - unfold space_free, chars. simpl. intros H.
    repeat (apply elem_of_cons in H as [H|H]; [discriminate H|]).
    by apply elem_of_nil in H.
  - unfold space_free, chars. simpl. intros H.
    repeat (apply elem_of_cons in H as [H|H]; [discriminate H|]).
    by apply elem_of_nil in H.
  - by left.
Defined.

(** ** Usernames *)

Lemma username_char_alphabet c :
  username_char c = bool_decide (c ∈ chars username_alphabet).
Proof. destruct c as [[] [] [] [] [] [] [] []]; by vm_compute. Qed.

Lemma startsWith_char s c :
  Js.startsWith s (String c "") = true ↔ ∃ r, s = String c r.
Proof.
  destruct s as [|b s].
  - split; [done | by intros [r ?]].
  - change (Js.startsWith (String b s) (String c ""))
      with (Ascii.eqb c b && true).
    rewrite andb_true_r, Ascii.eqb_eq. split.
    + intros ->. by exists s.
    + by intros [r [= -> _]].
Qed.

Lemma endsWith_char s c :
  Js.endsWith s (String c "") = true ↔ ∃ r, s = r +:+ String c "".
Proof.
  unfold Js.endsWith. change (String.rev (String c "")) with (String c "").
  rewrite startsWith_char. split.
  - intros [r Hr]. exists (String.rev r).
    rewrite <- (rev_involutive s), Hr. apply rev_cons.
  - intros [r ->]. exists (String.rev r). apply rev_snoc.
Qed.

Lemma includes_elem_of l x : includes l x = true ↔ x ∈ l.
Proof.
  unfold includes. rewrite existsb_exists. split.
  - intros (y & Hin & ->%String.eqb_eq). by apply list_elem_of_In.
  - intros Hin. exists x. split; [by apply list_elem_of_In|].
    apply String.eqb_refl.
Qed.

(** X20. [validateUsername] accepts exactly the usernames of 3 to 30
    letters, digits, underscores and hyphens that neither start nor end
    with a hyphen or an underscore and that are not, once lowercased, one
    of the reserved words. *)
Theorem validateUsername_grammar u :
  validateUsername u = true ↔ username_grammar u.
Proof.
  unfold validateUsername, username_grammar.
  change ("-" +:+ ?r) with (String "-" r).
  rewrite <- (startsWith_char u "-"), <- (endsWith_char u "-"),
    <- (startsWith_char u "_"), <- (endsWith_char u "_"),
    <- (includes_elem_of reserved), <- toLowerCase_lowercased.
  assert (Js.test_plus username_char u = true
          ↔ u ≠ "" ∧ ∀ c, c ∈ chars u → c ∈ chars username_alphabet)
    as Hplus.
  { assert (Js.test_plus username_char u
            = negb (String.eqb u "") && Js.all_chars username_char u) as ->.
    { by destruct u. }
    rewrite andb_true_iff, negb_true_iff, String.eqb_neq, all_chars_Forall,
      Forall_forall.
    split; intros [Hne Hall]; (split; [done|]); intros c Hc.
    - specialize (Hall c Hc). rewrite username_char_alphabet in Hall.
      by apply bool_decide_eq_true in Hall.
    - rewrite username_char_alphabet. apply bool_decide_eq_true.
      by apply Hall. }
  rewrite <- Hplus. clear Hplus.
  generalize (Js.test_plus username_char u) (Js.startsWith u "-")
    (Js.endsWith u "-") (Js.startsWith u "_") (Js.endsWith u "_")
    (includes reserved (Js.toLowerCase u)).
  intros t a b a' b' w.
  destruct t; simpl; [|intuition congruence].
  destruct (String.length u <? 3) eqn:H3; simpl.
  { apply Nat.ltb_lt in H3. split; [done | intros (_ & ? & _); lia]. }
  destruct (30 <? String.length u) eqn:H30; simpl.
  { apply Nat.ltb_lt in H30. split; [done | intros (_ & ? & _); lia]. }
  apply Nat.ltb_ge in H3, H30.
  destruct a, b, a', b', w; simpl; intuition congruence.
Qed.

(** ** Slugs and URLs of recorded sites *)

Lemma all_chars_alphabet s :
  Js.all_chars subdomain_char s = true
  ↔ ∀ c, c ∈ chars s → c ∈ chars slug_grammar_alphabet.
Proof.
  rewrite all_chars_Forall, Forall_forall.
  split; intros Hall c Hc.
  - specialize (Hall c Hc). rewrite subdomain_char_alphabet in Hall.
    by apply bool_decide_eq_true in Hall.
  - rewrite subdomain_char_alphabet. apply bool_decide_eq_true. by apply Hall.
Qed.

Lemma pretty_nat_nonempty (n : nat) : pretty n ≠ "".
Proof.
  unfold pretty, pretty_nat, pretty, pretty_N.
  case_decide; [done|].
  rewrite pretty_N_go_step by lia. by apply pretty_N_go_nonempty.
Qed.

(** Every value the slug loop tries for a valid candidate is made of the
    characters of the grammar, has at least 3 characters, and has no
    hyphen at either end. *)
Lemma attempt_shape slug m :
  validateSubdomain slug = true →
  Js.all_chars subdomain_char (attempt slug m) = true
  ∧ 3 ≤ String.length (attempt slug m)
  ∧ (¬ ∃ r, attempt slug m = "-" +:+ r)
  ∧ (¬ ∃ r, attempt slug m = r +:+ "-").
Proof.
  intros ((Hne & Hchars) & Hlen & Hstart & Hend)%validateSubdomain_grammar.
  apply all_chars_alphabet in Hchars.
  destruct m as [|k]; unfold attempt; [repeat split; try done; lia|].
  split; [|split; [|split]].
  - rewrite !all_chars_app, Hchars. simpl.
    apply pretty_nat_chars. intros y. unfold pretty_N_char.
    by repeat case_match.
  - rewrite length_string_app. lia.
  - intros [r Hr]. apply Hstart.
    destruct slug as [|c t]; [done|]. injection Hr as -> _. by exists t.
  - intros [r Hr].
    apply append_ends_with in Hr as [r' Hr]; [|done].
    apply (append_ends_with "-") in Hr as [r'' Hr];
      [|apply pretty_nat_nonempty].
    pose proof (pretty_nat_hyphen_free (S k)) as Hfree.
    rewrite Hr in Hfree. by rewrite (hyphen_inside r'' "") in Hfree.
Qed.

(** The slug of a recorded site is a value the slug loop tried for a
    candidate that passed the validation. *)
Lemma reachable_site_slug domains primary d i u s :
  reachable domains primary d → recorded d i u s →
  ∃ slug m, validateSubdomain slug = true ∧ site_slug s = attempt slug m.
Proof.
  intros Hreach [Hu Hs]. revert i u s Hu Hs.
  induction Hreach as [|env body d _ IH|env userId body d r d' _ IH Hup];
    intros i u s Hu Hs.
  - simpl in Hu. by rewrite lookup_empty in Hu.
  - destruct (register_trace env body d) as (_ & _ & [Hsame | Hnew]).
    + rewrite Hsame in Hu. by apply (IH i u).
    + destruct Hnew as (name & mail & pass & users0 & _ & _ & _ & _ & Hread
                        & _ & _ & Hfile).
      rewrite Hfile, lookup_insert in Hu. case_decide.
      * injection Hu as <-. by apply elem_of_nil in Hs.
      * destruct Hread as [-> | ->]; [by apply (IH i u)|].
        by rewrite lookup_empty in Hu.
  - destruct (upload_trace _ _ _ _ _ _ _ _ Hup)
      as [[-> _] | (h & user & slug & finalSlug & _ & Huser & _ & Hvalid
                    & Huniq
                    & [[-> _] | [[-> _] | (r' & _ & _ & Hsite & _ & _ & _ & _
                                           & ->)]])];
      try by apply (IH i u).
    simpl in Hu. rewrite lookup_insert in Hu.
    case_decide; [|by apply (IH i u)].
    injection Hu as <-. simpl in Hs.
    apply elem_of_app in Hs as [Hs | ->%list_elem_of_singleton].
    + by apply (IH userId user).
    + rewrite Hsite. simpl. exists slug.
      destruct (uniqueSlug_first_free slug (user_sites user))
        as (m & Hm & _).
      exists m. split; [done|]. congruence.
Qed.

(** X21. In every state the server reaches, the slug of each recorded
    site is made of letters, digits and hyphens, has at least 3
    characters, and neither starts nor ends with a hyphen. *)
Theorem reachable_slug_shape domains primary d i u s :
  reachable domains primary d → recorded d i u s →
  (∀ c, c ∈ chars (site_slug s) → c ∈ chars slug_grammar_alphabet)
  ∧ 3 ≤ String.length (site_slug s)
  ∧ (¬ ∃ r, site_slug s = "-" +:+ r)
  ∧ (¬ ∃ r, site_slug s = r +:+ "-").
Proof.
  intros Hreach Hrec.
  destruct (reachable_site_slug _ _ _ _ _ _ Hreach Hrec)
    as (slug & m & Hvalid & ->).
  rewrite <- all_chars_alphabet. by apply attempt_shape.
Qed.

Lemma reachable_slug_shape_witness :
  (∀ c, c ∈ chars (site_slug bob_site) → c ∈ chars slug_grammar_alphabet)
  ∧ 3 ≤ String.length (site_slug bob_site)
  ∧ (¬ ∃ r, site_slug bob_site = "-" +:+ r)
  ∧ (¬ ∃ r, site_slug bob_site = r +:+ "-").
Proof.
  apply (reachable_slug_shape Deployment.SUPPORTED_DOMAINS
           Deployment.PRIMARY_DOMAIN bob_published_disk "u9"
           (withSite bob bob_site)).
  - apply bob_published_reachable.
  - apply bob_site_recorded.
Defined.

Lemma append_inv_head a x y : a +:+ x = a +:+ y → x = y.
Proof.
  induction a as [|c a IH]; [done|]. simpl. intros [= H]. by apply IH.
Qed.

(** A slug has no dot, so the dot that ends it in a URL is the first. *)
Lemma dot_split_inj a b x y :
  Js.all_chars subdomain_char a = true →
  Js.all_chars subdomain_char b = true →
  a +:+ "." +:+ x = b +:+ "." +:+ y → a = b ∧ x = y.
Proof.
  revert b. induction a as [|c a IH]; intros [|c' b] Ha Hb Heq.
  - by injection Heq as ->.
  - injection Heq as <- _. by vm_compute in Hb.
  - injection Heq as -> _. by vm_compute in Ha.
  - injection Heq as <- Heq.
    apply andb_true_iff in Ha as [_ Ha]. apply andb_true_iff in Hb as [_ Hb].
    destruct (IH b Ha Hb Heq) as [-> ->]. done.
Qed.

(** X22. In every state the server reaches, a URL of a user's site
    names the site among the sites of that user: when two recorded
    sites of one user have the same URL, for whichever domains, they have
    the same slug and the two domains are the same. *)
Theorem reachable_url_names_slug domains primary d i u s t dom dom' url :
  reachable domains primary d → recorded d i u s → recorded d i u t →
  site_urls s !! dom = Some url → site_urls t !! dom' = Some url →
  site_slug s = site_slug t ∧ dom = dom'.
Proof.
  intros Hreach Hs Ht Hurl Hurl'.
  destruct (reachable_site_record _ _ _ _ _ _ Hreach Hs) as (Hus & _).
  destruct (reachable_site_record _ _ _ _ _ _ Hreach Ht) as (Hut & _).
  destruct (reachable_site_slug _ _ _ _ _ _ Hreach Hs)
    as (slug & m & Hvalid & Hslug).
  destruct (reachable_site_slug _ _ _ _ _ _ Hreach Ht)
    as (slug' & m' & Hvalid' & Hslug').
  pose proof (attempt_shape slug m Hvalid) as (Hchars & _).
  pose proof (attempt_shape slug' m' Hvalid') as (Hchars' & _).
  rewrite <- Hslug in Hchars. rewrite <- Hslug' in Hchars'.
  rewrite Hus, lookup_generateSiteUrls in Hurl.
  rewrite Hut, lookup_generateSiteUrls in Hurl'.
  case_decide; [|done]. case_decide; [|done].
  injection Hurl as <-. injection Hurl' as Heq. unfold siteUrl in Heq.
  apply (append_inv_head (user_subdomain u)) in Heq.
  injection Heq as Heq.
  destruct (dot_split_inj _ _ _ _ Hchars' Hchars Heq) as [Hs' Hd].
  by split.
Qed.

Lemma reachable_url_names_slug_witness :
  site_slug bob_site = site_slug bob_site ∧ "ntando.app" = "ntando.app".
Proof.
  apply (reachable_url_names_slug Deployment.SUPPORTED_DOMAINS
           Deployment.PRIMARY_DOMAIN bob_published_disk "u9"
           (withSite bob bob_site) bob_site bob_site "ntando.app"
           "ntando.app" "https://bob-quicksite1-test.ntando.app").
  - apply bob_published_reachable.
  - apply bob_site_recorded.
  - apply bob_site_recorded.
  - by vm_compute.
  - by vm_compute.
Defined.

(** X23. The URLs do not tell users apart.  On the configuration of the
    repository the server reaches a state in which two different users
    each have a site with the URL
    [https://abc-quicksite1-xyz-brightpage2-home.ntando.app]: the
    user [abc] with the slug [xyz-brightpage2-home] and the user
    [abc-quicksite1-xyz] with the slug [home]. *)
Theorem url_shared_by_two_users :
  ∃ d u v s t dom url,
    reachable Deployment.SUPPORTED_DOMAINS Deployment.PRIMARY_DOMAIN d
    ∧ recorded d "u1" u s ∧ recorded d "u2" v t
    ∧ user_username u = "abc" ∧ user_username v = "abc-quicksite1-xyz"
    ∧ site_slug s = "xyz-brightpage2-home" ∧ site_slug t = "home"
    ∧ site_urls s !! dom = Some url ∧ site_urls t !! dom = Some url.
Proof.
  exists two_homes_disk.
  assert (∃ u v s t,
            USERS_FILE two_homes_disk !! "u1" = Some u
            ∧ USERS_FILE two_homes_disk !! "u2" = Some v
            ∧ user_sites u = [s] ∧ user_sites v = [t]
            ∧ user_username u = "abc"
            ∧ user_username v = "abc-quicksite1-xyz"
            ∧ site_slug s = "xyz-brightpage2-home" ∧ site_slug t = "home"
            ∧ site_urls s !! "ntando.app"
              = Some "https://abc-quicksite1-xyz-brightpage2-home.ntando.app"
            ∧ site_urls t !! "ntando.app"
              = Some "https://abc-quicksite1-xyz-brightpage2-home.ntando.app")
    as (u & v & s & t & Hu & Hv & Hsu & Hsv & Hnu & Hnv & Hs & Ht & Hus & Hut).
  { eexists _, _, _, _. repeat split; by vm_compute. }
  exists u, v, s, t, "ntando.app",
    "https://abc-quicksite1-xyz-brightpage2-home.ntando.app".
  split; [apply two_homes_reachable|].
  split; [split; [done | rewrite Hsu; by left]|].
  split; [split; [done | rewrite Hsv; by left]|].
  done.
Qed.

(** ** User ids that are no key of the store *)


